(** * Rediver SDK, package [core]: scanner execution and finding normalisation

    A shallow embedding of [pkg/core/exec.go] (process runner, stream
    capture) and of the normalisation helpers that follow it in the same
    package (fingerprints, CVSS selection, severity and package-type
    mapping), with the properties of the specification stated over it.

    Conventions.
    - A Go [string] is a byte string: Rocq's [string], one [ascii] per byte.
    - A Go [[]byte] is a [list Byte.byte].
    - Go's [int], [int64] and [time.Duration] are [Z].
    - Go's [float64] is Rocq's primitive binary64 [float].
    - A Go [map[K]V] is a [gmap K V]. *)

From Stdlib Require Import ZArith List String Ascii Bool Lia Floats DecimalString.
From stdpp Require Import base option list gmap strings.

Set Warnings "-inexact-float,-abstract-large-number".

Open Scope Z_scope.
Open Scope string_scope.

(* ===================================================================== *)
(** * Byte strings *)
(* ===================================================================== *)

(** The byte with code [n]. *)
Definition chr (n : N) : ascii := ascii_of_N n.

(** The string of the bytes with the given codes. *)
Fixpoint str_of_codes (l : list N) : string :=
  match l with
  | [] => ""
  | n :: l' => String (chr n) (str_of_codes l')
  end.

(** Every byte of [s] satisfies [P]. *)
Fixpoint all_bytes (P : ascii -> bool) (s : string) : bool :=
  match s with
  | EmptyString => true
  | String c s' => P c && all_bytes P s'
  end.

(* ===================================================================== *)
(** * Scanner execution *)
(* ===================================================================== *)

(** ** What the Go runtime and the operating system contribute

    [os/exec], [context] and [bufio] are not part of the repository; they
    are described here as far as the runner can observe them. *)

(** How a process ended ([os.ProcessState]). *)
Inductive ProcessState :=
| Exited (code : Z)
| Signaled (sig : Z).

Definition SIGKILL : Z := 9.

(** [ProcessState.ExitCode]: -1 for a process ended by a signal. *)
Definition ProcessState_ExitCode (ps : ProcessState) : Z :=
  match ps with
  | Exited code => code
  | Signaled _ => -1
  end.

(** [ProcessState.Success] *)
Definition ProcessState_Success (ps : ProcessState) : bool :=
  match ps with
  | Exited code => (code =? 0)%Z
  | Signaled _ => false
  end.

(** The values of Go's [error] interface met by the runner.  The dynamic
    type [*exec.ExitError] is the constructor [ExitError]. *)
Inductive error :=
| ErrNotFound
| ErrPermission
| ErrPipe
| ErrWaitFailed
| DeadlineExceeded
| Canceled
| ExitError (ps : ProcessState)
| Errorf (msg : string) (wrapped : error).

(** How a pipe's [Read] finally fails: with [io.EOF], or with another
    error. *)
Inductive read_end := EOF | ReadFailed.

(** One output pipe of the child: the bytes it delivers, then its end. *)
Record Stream := mkStream {
  delivered : list Byte.byte;
  ending : read_end
}.

(** A [context.Context]: the time, in nanoseconds from the call, after
    which it is done ([None]: never), and its [Err()] from then on. *)
Record Context := mkContext {
  done_in : option Z;
  ctx_err : error
}.

Definition Background : Context := mkContext None Canceled.

(** [context.WithTimeout(parent, timeout)]: the parent itself when it is
    done earlier. *)
Definition WithTimeout (parent : Context) (timeout : Z) : Context :=
  match done_in parent with
  | Some d => if (d <=? timeout)%Z then parent else mkContext (Some timeout) DeadlineExceeded
  | None => mkContext (Some timeout) DeadlineExceeded
  end.

(** [*exec.Cmd], the fields the runner sets; [CmdEnv = None] is a nil
    [Env], with which the child inherits the environment of the caller. *)
Record Cmd := mkCmd {
  Path : string;
  CmdArgs : list string;
  Dir : string;
  CmdEnv : option (list string)
}.

(** How the caller consumes the two pipes of a child it started. *)
Inductive Reading :=
| Buffered (verbose : bool)     (* [captureOutput], echoing to the console or not *)
| Streamed (handler : bool).    (* [streamWithHandler], with a handler or with nil *)

(** What the operating system does with a command, as one run of it shows.
    Times are in nanoseconds.  [setup_ns] runs from the creation of the
    context to the check of the context in [cmd.Start]; it is never zero.
    The other times run from [cmd.Start], where the runner reads its clock.
    The run comes to an end: the child ends, by itself or killed, and the
    pipes reach their end. *)
Record Invocation := mkInvocation {
  stdout_pipe_err : option error;   (* failure of [cmd.StdoutPipe] *)
  stderr_pipe_err : option error;   (* failure of [cmd.StderrPipe] *)
  lookup_err : option error;        (* the binary was not found *)
  fork_err : option error;          (* failure of [os.StartProcess] *)
  stdout_stream : Stream;
  stderr_stream : Stream;
  run_ns : Z;                       (* when the child ends, if it is not killed *)
  exit_status : Z;                  (* its exit status, if it is not killed *)
  wait_err : option error;          (* failure of the wait system call *)
  setup_ns : positive;              (* time spent before [cmd.Start] *)
  drained_ns : Z                    (* when both reading loops of the caller are done *)
}.

(** The caller's side of the runtime: [cmd.Environ()], the environment a
    command would run in as configured; the behaviour of the system for a
    command whose output [cmd.Output] collects; and its behaviour for a
    command with pipes that the caller reads.  How long the child lives and
    how long its pipes stay open depends on how the caller reads them (a
    slow reader or one that stops reading blocks the writer; a descendant
    of the child may hold a pipe open) and on the context (a kill closes
    the pipes of the child), so the latter behaviour is given for each way
    of reading and each context. *)
Record Runtime := mkRuntime {
  Environ : Cmd -> list string;
  spawn : Cmd -> Invocation;
  spawn_read : Reading -> Context -> Cmd -> Invocation
}.

(** The environment the child gets. *)
Definition child_env (rt : Runtime) (cmd : Cmd) : list string :=
  match CmdEnv cmd with
  | Some env => env
  | None => Environ rt cmd
  end.

(** The context is done by the time [cmd.Start] looks at it. *)
Definition done_at_start (ctx : Context) (inv : Invocation) : bool :=
  match done_in ctx with
  | Some d => (d <=? Z.pos (setup_ns inv))%Z
  | None => false
  end.

(** The time left on the context when the command starts. *)
Definition time_left (ctx : Context) (inv : Invocation) : option Z :=
  match done_in ctx with
  | Some d => Some (d - Z.pos (setup_ns inv))
  | None => None
  end.

(** [cmd.Start]: the lookup failure recorded in the command, then a
    context that is done, then the failure to start the process. *)
Definition Cmd_Start (ctx : Context) (inv : Invocation) : option error :=
  match lookup_err inv with
  | Some e => Some e
  | None => if done_at_start ctx inv then Some (ctx_err ctx) else fork_err inv
  end.

(** The life of a started child under [exec.CommandContext] when
    [cmd.Wait] follows [cmd.Start] at once, as in [cmd.Run]: when the
    context is done before the child ends, the child is killed; the result
    is its state, the error of the goroutine watching the context, and the
    time at which it ended. *)
Definition run_child (ctx : Context) (inv : Invocation)
  : ProcessState * option error * Z :=
  match time_left ctx inv with
  | Some remaining =>
      if (remaining <? run_ns inv)%Z
      then (Signaled SIGKILL, Some (ctx_err ctx), remaining)
      else (Exited (exit_status inv), None, run_ns inv)
  | None => (Exited (exit_status inv), None, run_ns inv)
  end.

(** [cmd.Wait] following [cmd.Start] at once: a failure of the wait itself;
    otherwise an [*ExitError] for a process that did not succeed; otherwise
    the error of the context watcher. *)
Definition Cmd_Wait (ctx : Context) (inv : Invocation) : option error :=
  let '(ps, watch, _) := run_child ctx inv in
  match wait_err inv with
  | Some e => Some e
  | None => if ProcessState_Success ps then watch else Some (ExitError ps)
  end.

(** The child as [cmd.Wait] finds it when it is called only once both
    reading loops are done, as the runners do.  The goroutine of [os/exec]
    (Go 1.20 and later) that watches the context runs until [cmd.Wait]
    collects the child.
    When the context is done while the child runs, the child is killed.
    When it is done after the child has ended by itself, but before the
    pipes are drained, the kill reaches a process that is not collected
    yet, succeeds, and the watcher keeps the error of the context.  The
    result is the state of the child and the error of the watcher. *)
Definition collect_child (ctx : Context) (inv : Invocation)
  : ProcessState * option error :=
  match time_left ctx inv with
  | Some remaining =>
      if (remaining <? run_ns inv)%Z then (Signaled SIGKILL, Some (ctx_err ctx))
      else if (remaining <? drained_ns inv)%Z
           then (Exited (exit_status inv), Some (ctx_err ctx))
           else (Exited (exit_status inv), None)
  | None => (Exited (exit_status inv), None)
  end.

(** [cmd.Wait] called once both reading loops are done: a failure of the
    wait itself; otherwise an [*ExitError] for a process that did not
    succeed; otherwise the error of the context watcher. *)
Definition Cmd_Wait_drained (ctx : Context) (inv : Invocation) : option error :=
  let '(ps, watch) := collect_child ctx inv in
  match wait_err inv with
  | Some e => Some e
  | None => if ProcessState_Success ps then watch else Some (ExitError ps)
  end.

(** When the child ends: by itself, or killed when the context is done. *)
Definition child_end_ns (ctx : Context) (inv : Invocation) : Z :=
  match time_left ctx inv with
  | Some remaining => Z.min remaining (run_ns inv)
  | None => run_ns inv
  end.

(** [time.Since(start)] as the runners read it: once both reading loops
    are done and [cmd.Wait], called after them, has returned. *)
Definition returned_ns (ctx : Context) (inv : Invocation) : Z :=
  Z.max (drained_ns inv) (child_end_ns ctx inv).

(** [Duration.Milliseconds] *)
Definition Milliseconds (ns : Z) : Z := Z.quot ns 1000000.

Definition newline : Byte.byte := Byte.x0a.
Definition carriage_return : Byte.byte := Byte.x0d.

(** [bufio.Reader.ReadBytes(delim)] on the bytes still to come: the line
    with its delimiter, the bytes left, and the error when the stream ended
    before a delimiter. *)
Fixpoint ReadBytes (delim : Byte.byte) (pending : list Byte.byte) (e : read_end)
  : list Byte.byte * list Byte.byte * option read_end :=
  match pending with
  | [] => ([], [], Some e)
  | b :: rest =>
      if Byte.eqb b delim then ([b], rest, None)
      else let '(line, rest', err) := ReadBytes delim rest e in
           (b :: line, rest', err)
  end.

(** [bufio.MaxScanTokenSize], the buffer limit of a [bufio.NewScanner]. *)
Definition MaxScanTokenSize : nat := 65536.

(** [bytes.IndexByte] *)
Fixpoint IndexByte (data : list Byte.byte) (c : Byte.byte) : option nat :=
  match data with
  | [] => None
  | b :: rest =>
      if Byte.eqb b c then Some O
      else match IndexByte rest c with
           | Some i => Some (S i)
           | None => None
           end
  end.

(** [dropCR] of [bufio.ScanLines]: drops one trailing carriage return. *)
Fixpoint dropCR (data : list Byte.byte) : list Byte.byte :=
  match data with
  | [] => []
  | [b] => if Byte.eqb b carriage_return then [] else [b]
  | b :: rest => b :: dropCR rest
  end.

(** One [Scanner.Scan] with the split function [bufio.ScanLines], on the
    bytes still to come: the token and the bytes left.  The line is looked
    for in a buffer of [MaxScanTokenSize] bytes; a final line without
    terminator is a token; there is no token at the end of the stream, and
    none ([bufio.ErrTooLong]) when the buffer is full without a line end.
    An error of the pipe ends the stream as [io.EOF] does. *)
Definition Scan (pending : list Byte.byte) : option (list Byte.byte * list Byte.byte) :=
  match IndexByte (firstn MaxScanTokenSize pending) newline with
  | Some i => Some (dropCR (firstn i pending), skipn (S i) pending)
  | None =>
      if (length pending <? MaxScanTokenSize)%nat then
        match pending with
        | [] => None
        | _ :: _ => Some (dropCR pending, [])
        end
      else None
  end.

(** ** The runner *)

(** [type ExecConfig struct] *)
Record ExecConfig := mkExecConfig {
  Binary : string;
  Args : list string;
  WorkDir : string;
  Env : gmap string string;
  Timeout : Z;
  Verbose : bool
}.

(** [type ExecResult struct]; a nil [Error] is [None]. *)
Record ExecResult := mkExecResult {
  ExitCode : Z;
  Stdout : list Byte.byte;
  Stderr : list Byte.byte;
  DurationMs : Z;
  Error : option error
}.

(** The [for] loop of [captureOutput]: the buffer and the lines echoed to
    the console.  Each round without error takes at least one byte. *)
Fixpoint captureLoop (fuel : nat) (pending : list Byte.byte) (e : read_end)
    (stream : bool) (pre : string) (buf : list Byte.byte) (console : list string)
  : list Byte.byte * list string :=
  match fuel with
  | O => (buf, console)
  | S fuel' =>
      let '(line, rest, err) := ReadBytes newline pending e in
      let buf' := if (0 <? length line)%nat then (buf ++ line)%list else buf in
      let console' :=
        if (0 <? length line)%nat && stream
        then (console ++ ["[" +:+ pre +:+ "] " +:+ string_of_list_byte line])%list
        else console in
      match err with
      | Some _ => (buf', console')
      | None => captureLoop fuel' rest e stream pre buf' console'
      end
  end.

(** [func captureOutput(r io.ReadCloser, stream bool, prefix string) []byte],
    with what it prints. *)
Definition captureOutput (r : Stream) (stream : bool) (pre : string)
  : list Byte.byte * list string :=
  captureLoop (S (length (delivered r))) (delivered r) (ending r) stream pre [] [].

(** The [for scanner.Scan()] loop of [streamWithHandler]: the buffer and
    the calls of the handler. *)
Fixpoint streamLoop (fuel : nat) (pending : list Byte.byte) (handler isError : bool)
    (buf : list Byte.byte) (calls : list (string * bool))
  : list Byte.byte * list (string * bool) :=
  match fuel with
  | O => (buf, calls)
  | S fuel' =>
      match Scan pending with
      | Some (token, rest) =>
          let line := string_of_list_byte token in
          streamLoop fuel' rest handler isError
            (buf ++ list_byte_of_string (line +:+ String "010" ""))%list
            (if handler then (calls ++ [(line, isError)])%list else calls)
      | None => (buf, calls)
      end
  end.

(** [func streamWithHandler(r io.ReadCloser, handler OutputHandler,
    isError bool) []byte], with the calls it makes; [handler = false] is a
    nil handler. *)
Definition streamWithHandler (r : Stream) (handler isError : bool)
  : list Byte.byte * list (string * bool) :=
  streamLoop (S (length (delivered r))) (delivered r) handler isError [] [].

(** The entries [k=v] appended for [cfg.Env], in the order of the map
    iteration. *)
Definition env_overrides (env : gmap string string) : list string :=
  map (fun kv => fst kv +:+ "=" +:+ snd kv) (map_to_list env).

(** The command [ExecuteScanner] starts: lines 44 to 57. *)
Definition ExecuteScanner_cmd (rt : Runtime) (cfg : ExecConfig) : Cmd :=
  let cmd := mkCmd (Binary cfg) (Args cfg) "" None in
  let cmd := if String.eqb (WorkDir cfg) "" then cmd
             else mkCmd (Path cmd) (CmdArgs cmd) (WorkDir cfg) (CmdEnv cmd) in
  if (0 <? size (Env cfg))%nat
  then mkCmd (Path cmd) (CmdArgs cmd) (Dir cmd)
             (Some (Environ rt cmd ++ env_overrides (Env cfg))%list)
  else cmd.

(** The command [StreamScanner] starts: lines 149 to 153. *)
Definition StreamScanner_cmd (rt : Runtime) (cfg : ExecConfig) : Cmd :=
  let cmd := mkCmd (Binary cfg) (Args cfg) "" None in
  if String.eqb (WorkDir cfg) "" then cmd
  else mkCmd (Path cmd) (CmdArgs cmd) (WorkDir cfg) (CmdEnv cmd).

(** [func ExecuteScanner(ctx context.Context, cfg *ExecConfig)], returning
    [*ExecResult] and [error]; a nil result is [None].  The two capturing
    goroutines share no state and are joined before [cmd.Wait]; the clock
    is read after [cmd.Wait]. *)
Definition ExecuteScanner (rt : Runtime) (ctx : Context) (cfg : ExecConfig)
  : option ExecResult * option error :=
  let ctx := if (0 <? Timeout cfg)%Z then WithTimeout ctx (Timeout cfg) else ctx in
  let inv := spawn_read rt (Buffered (Verbose cfg)) ctx (ExecuteScanner_cmd rt cfg) in
  match stdout_pipe_err inv with
  | Some err => (None, Some (Errorf "failed to create stdout pipe" err))
  | None =>
  match stderr_pipe_err inv with
  | Some err => (None, Some (Errorf "failed to create stderr pipe" err))
  | None =>
  match Cmd_Start ctx inv with
  | Some err => (None, Some (Errorf "failed to start scanner" err))
  | None =>
      let stdoutBuf := fst (captureOutput (stdout_stream inv) (Verbose cfg) "stdout") in
      let stderrBuf := fst (captureOutput (stderr_stream inv) (Verbose cfg) "stderr") in
      let err := Cmd_Wait_drained ctx inv in
      let result :=
        mkExecResult 0 stdoutBuf stderrBuf (Milliseconds (returned_ns ctx inv)) None in
      match err with
      | Some (ExitError ps) =>
          (Some (mkExecResult (ProcessState_ExitCode ps) (Stdout result)
                   (Stderr result) (DurationMs result) (Error result)), None)
      | Some e =>
          (Some (mkExecResult (ExitCode result) (Stdout result) (Stderr result)
                   (DurationMs result) (Some e)), None)
      | None => (Some result, None)
      end
  end end end.

(** [func StreamScanner(ctx context.Context, cfg *ExecConfig,
    handler OutputHandler)], returning [*ExecResult] and [error]. *)
Definition StreamScanner (rt : Runtime) (ctx : Context) (cfg : ExecConfig)
    (handler : bool) : option ExecResult * option error :=
  let ctx := if (0 <? Timeout cfg)%Z then WithTimeout ctx (Timeout cfg) else ctx in
  let inv := spawn_read rt (Streamed handler) ctx (StreamScanner_cmd rt cfg) in
  match stdout_pipe_err inv with
  | Some err => (None, Some (Errorf "failed to create stdout pipe" err))
  | None =>
  match stderr_pipe_err inv with
  | Some err => (None, Some (Errorf "failed to create stderr pipe" err))
  | None =>
  match Cmd_Start ctx inv with
  | Some err => (None, Some (Errorf "failed to start scanner" err))
  | None =>
      let stdoutBuf := fst (streamWithHandler (stdout_stream inv) handler false) in
      let stderrBuf := fst (streamWithHandler (stderr_stream inv) handler true) in
      let err := Cmd_Wait_drained ctx inv in
      let result :=
        mkExecResult 0 stdoutBuf stderrBuf (Milliseconds (returned_ns ctx inv)) None in
      match err with
      | Some (ExitError ps) =>
          (Some (mkExecResult (ProcessState_ExitCode ps) (Stdout result)
                   (Stderr result) (DurationMs result) (Error result)), None)
      | Some e =>
          (Some (mkExecResult (ExitCode result) (Stdout result) (Stderr result)
                   (DurationMs result) (Some e)), None)
      | None => (Some result, None)
      end
  end end end.

(** ** Notions used to state the properties of the runner *)

(** The context the command runs under: lines 38 to 42 and 143 to 147. *)
Definition run_context (ctx : Context) (cfg : ExecConfig) : Context :=
  if (0 <? Timeout cfg)%Z then WithTimeout ctx (Timeout cfg) else ctx.

(** The run of the system that each runner observes. *)
Definition ExecuteScanner_inv (rt : Runtime) (ctx : Context) (cfg : ExecConfig)
  : Invocation :=
  spawn_read rt (Buffered (Verbose cfg)) (run_context ctx cfg)
    (ExecuteScanner_cmd rt cfg).

Definition StreamScanner_inv (rt : Runtime) (ctx : Context) (cfg : ExecConfig)
    (handler : bool) : Invocation :=
  spawn_read rt (Streamed handler) (run_context ctx cfg) (StreamScanner_cmd rt cfg).

(** The failure that keeps an invocation from starting, as the runner
    returns it: a pipe that cannot be created, or [cmd.Start] failing. *)
Definition start_failure (ctx : Context) (inv : Invocation) : option error :=
  match stdout_pipe_err inv with
  | Some err => Some (Errorf "failed to create stdout pipe" err)
  | None =>
      match stderr_pipe_err inv with
      | Some err => Some (Errorf "failed to create stderr pipe" err)
      | None =>
          match Cmd_Start ctx inv with
          | Some err => Some (Errorf "failed to start scanner" err)
          | None => None
          end
      end
  end.

(** The result built from the error of [cmd.Wait]: lines 96 to 110 and 188
    to 202. *)
Definition wait_report (out err : list Byte.byte) (ms : Z) (w : option error)
  : option ExecResult * option error :=
  match w with
  | Some (ExitError ps) =>
      (Some (mkExecResult (ProcessState_ExitCode ps) out err ms None), None)
  | Some e => (Some (mkExecResult 0 out err ms (Some e)), None)
  | None => (Some (mkExecResult 0 out err ms None), None)
  end.

Definition is_ExitError (e : error) : bool :=
  match e with
  | ExitError _ => true
  | _ => false
  end.

(** The lines of a byte sequence: the runs of bytes ended by a line feed,
    and a last run without line feed when it is not empty. *)
Fixpoint split_lines (data : list Byte.byte) : list (list Byte.byte) :=
  match data with
  | [] => []
  | b :: rest =>
      if Byte.eqb b newline then [] :: split_lines rest
      else match split_lines rest with
           | [] => [[b]]
           | l :: ls => (b :: l) :: ls
           end
  end.

(** A line as [streamWithHandler] stores it. *)
Definition stored_line (l : list Byte.byte) : list Byte.byte :=
  (dropCR l ++ [newline])%list.

(** Sample runs, each started one microsecond after its context was made.
    A scanner that is not installed.  A scanner that would run for five
    seconds, under a timeout of 100 ms: its pipes are at their end shortly
    after the kill.  A scanner that reports findings with exit status 3
    after 20 ms.  A scanner that exits with status 0 after 1 ms and leaves
    a descendant that holds the pipes for a second.  A scanner that would
    run for five seconds and whose descendant holds the pipes for two
    seconds. *)
Definition quiet : Stream := mkStream [] EOF.

Definition inv_slow : Invocation :=
  mkInvocation None None None None quiet quiet 5000000000 0 None 1000 100400000.
Definition inv_findings : Invocation :=
  mkInvocation None None None None quiet quiet 20000000 3 None 1000 20300000.
Definition inv_lingering : Invocation :=
  mkInvocation None None None None quiet quiet 1000000 0 None 1000 1001000000.
Definition inv_held : Invocation :=
  mkInvocation None None None None quiet quiet 5000000000 0 None 1000 2001000000.

Definition caller_env : list string := ["PATH=/usr/bin"].

(** The runtime in which every command runs as [inv] does. *)
Definition rt_of (inv : Invocation) : Runtime :=
  mkRuntime (fun _ => caller_env) (fun _ => inv) (fun _ _ _ => inv).

Definition rt_slow : Runtime := rt_of inv_slow.
Definition rt_findings : Runtime := rt_of inv_findings.
Definition rt_lingering : Runtime := rt_of inv_lingering.
Definition rt_held : Runtime := rt_of inv_held.

Definition cfg_plain : ExecConfig :=
  mkExecConfig "scanner" ["--json"] "" ∅ 0 false.
Definition cfg_timeout : ExecConfig :=
  mkExecConfig "scanner" ["--json"] "" ∅ 100000000 false.
Definition cfg_half_second : ExecConfig :=
  mkExecConfig "scanner" ["--json"] "" ∅ 500000000 false.
Definition cfg_nanosecond : ExecConfig :=
  mkExecConfig "scanner" ["--json"] "" ∅ 1 false.
Definition cfg_env : ExecConfig :=
  mkExecConfig "trivy" ["fs"; "."] "/repo" {[ "TRIVY_TOKEN" := "s3" ]} 0 false.

(** A stream with a line in CR LF and a last line without terminator, and
    one whose first line has [MaxScanTokenSize] bytes. *)
Definition crlf_stream : Stream :=
  mkStream [Byte.x61; carriage_return; newline; Byte.x62] EOF.
Definition long_line_stream : Stream :=
  mkStream (repeat Byte.x61 MaxScanTokenSize ++ [newline; Byte.x62; newline])%list EOF.

(* ===================================================================== *)
(** * Fingerprint generation *)
(* ===================================================================== *)

(** ** [crypto/sha256]: SHA-256 as in FIPS 180-4

    The 32-bit words of the algorithm are held in [Z]; additions wrap
    around by masking with [2^32 - 1]. *)

Definition mask32 : Z := 0xffffffff.
Definition w32 (x : Z) : Z := Z.land x mask32.
Definition add32 (x y : Z) : Z := w32 (x + y).
Definition rotr (n x : Z) : Z :=
  Z.lor (Z.shiftr x n) (w32 (Z.shiftl x (32 - n))).
Definition shr (n x : Z) : Z := Z.shiftr x n.
Definition xor3 (x y z : Z) : Z := Z.lxor (Z.lxor x y) z.

Definition Ch (x y z : Z) : Z :=
  Z.lxor (Z.land x y) (Z.land (Z.lxor x mask32) z).
Definition Maj (x y z : Z) : Z := xor3 (Z.land x y) (Z.land x z) (Z.land y z).
Definition Sigma0 (x : Z) : Z := xor3 (rotr 2 x) (rotr 13 x) (rotr 22 x).
Definition Sigma1 (x : Z) : Z := xor3 (rotr 6 x) (rotr 11 x) (rotr 25 x).
Definition sigma0 (x : Z) : Z := xor3 (rotr 7 x) (rotr 18 x) (shr 3 x).
Definition sigma1 (x : Z) : Z := xor3 (rotr 17 x) (rotr 19 x) (shr 10 x).

(** The largest [r] below [2^bits] with [r^3 <= x], found bit by bit. *)
Fixpoint cube_root (bits : nat) (x acc : Z) : Z :=
  match bits with
  | O => acc
  | S bits' =>
      let try := acc + 2 ^ Z.of_nat bits' in
      cube_root bits' x (if (try * try * try <=? x)%Z then try else acc)
  end.

(** The first 32 bits of the fractional part of a square or cube root. *)
Definition frac_sqrt32 (p : Z) : Z := Z.sqrt (p * 2 ^ 64) mod 2 ^ 32.
Definition frac_cbrt32 (p : Z) : Z := cube_root 36 (p * 2 ^ 96) 0 mod 2 ^ 32.

Definition first_primes : list Z :=
  [2; 3; 5; 7; 11; 13; 17; 19; 23; 29; 31; 37; 41; 43; 47; 53; 59; 61; 67; 71;
   73; 79; 83; 89; 97; 101; 103; 107; 109; 113; 127; 131; 137; 139; 149; 151;
   157; 163; 167; 173; 179; 181; 191; 193; 197; 199; 211; 223; 227; 229; 233;
   239; 241; 251; 257; 263; 269; 271; 277; 281; 283; 293; 307; 311].

(** The round constants: from the cube roots of the first 64 primes. *)
Definition K256 : list Z := Eval vm_compute in map frac_cbrt32 first_primes.

(** The eight working words. *)
Record sha_state := mkState {
  va : Z; vb : Z; vc : Z; vd : Z; ve : Z; vf : Z; vg : Z; vh : Z
}.

(** The initial hash value: from the square roots of the first 8 primes. *)
Definition sha_init : sha_state :=
  Eval vm_compute in
  mkState (frac_sqrt32 2) (frac_sqrt32 3) (frac_sqrt32 5) (frac_sqrt32 7)
          (frac_sqrt32 11) (frac_sqrt32 13) (frac_sqrt32 17) (frac_sqrt32 19).

(** One round, with round constant [k] and schedule word [w]. *)
Definition sha_round (st : sha_state) (k w : Z) : sha_state :=
  let t1 := add32 (add32 (add32 (add32 (vh st) (Sigma1 (ve st)))
                                (Ch (ve st) (vf st) (vg st))) k) w in
  let t2 := add32 (Sigma0 (va st)) (Maj (va st) (vb st) (vc st)) in
  mkState (add32 t1 t2) (va st) (vb st) (vc st)
          (add32 (vd st) t1) (ve st) (vf st) (vg st).

(** The message schedule is kept as a window of sixteen words
    [W(t) .. W(t+15)]; this is the word [W(t+16)]. *)
Definition schedule_next (ws : list Z) : Z :=
  add32 (add32 (sigma1 (nth 14 ws 0)) (nth 9 ws 0))
        (add32 (sigma0 (nth 1 ws 0)) (nth 0 ws 0)).

Fixpoint sha_rounds (ks ws : list Z) (st : sha_state) : sha_state :=
  match ks, ws with
  | k :: ks', w :: ws' =>
      sha_rounds ks' (ws' ++ [schedule_next ws])%list (sha_round st k w)
  | _, _ => st
  end.

(** Big-endian words of a block of bytes. *)
Fixpoint be_words (bs : list Z) : list Z :=
  match bs with
  | b3 :: b2 :: b1 :: b0 :: rest =>
      (Z.shiftl b3 24 + Z.shiftl b2 16 + Z.shiftl b1 8 + b0) :: be_words rest
  | _ => []
  end.

Definition sha_compress (st : sha_state) (block : list Z) : sha_state :=
  let r := sha_rounds K256 (be_words block) st in
  mkState (add32 (va st) (va r)) (add32 (vb st) (vb r))
          (add32 (vc st) (vc r)) (add32 (vd st) (vd r))
          (add32 (ve st) (ve r)) (add32 (vf st) (vf r))
          (add32 (vg st) (vg r)) (add32 (vh st) (vh r)).

Fixpoint sha_blocks (fuel : nat) (st : sha_state) (bs : list Z) : sha_state :=
  match fuel, bs with
  | S fuel', _ :: _ => sha_blocks fuel' (sha_compress st (firstn 64 bs)) (skipn 64 bs)
  | _, _ => st
  end.

Definition be_bytes (n : nat) (x : Z) : list Z :=
  map (fun i => Z.land (Z.shiftr x (8 * Z.of_nat i)) 255) (rev (seq 0 n)).

(** The message, a one bit, zeros up to 56 modulo 64 bytes, and the bit
    length on eight bytes. *)
Definition sha_pad (msg : list Z) : list Z :=
  let len := Z.of_nat (length msg) in
  (msg ++ [128] ++ repeat 0 (Z.to_nat ((55 - len) mod 64)) ++ be_bytes 8 (8 * len))%list.

Definition byte_to_Z (b : Byte.byte) : Z := Z.of_N (Byte.to_N b).

Definition byte_of_Z (z : Z) : Byte.byte :=
  match Byte.of_N (Z.to_N (Z.land z 255)) with
  | Some b => b
  | None => Byte.x00
  end.

(** [sha256.Sum256(data)]: the 32 bytes of the digest. *)
Definition Sum256 (data : list Byte.byte) : list Byte.byte :=
  let padded := sha_pad (map byte_to_Z data) in
  let st := sha_blocks (length padded) sha_init padded in
  map byte_of_Z
    (flat_map (be_bytes 4)
       [va st; vb st; vc st; vd st; ve st; vf st; vg st; vh st]).

(** ** [encoding/hex] *)

Definition hex_digit (n : N) : ascii :=
  if (n <? 10)%N then chr (48 + n) else chr (87 + n).

(** [hex.EncodeToString(src)]: two lower-case digits per byte. *)
Fixpoint hex_EncodeToString (src : list Byte.byte) : string :=
  match src with
  | [] => ""
  | b :: rest =>
      String (hex_digit (Byte.to_N b / 16))
        (String (hex_digit (Byte.to_N b mod 16)) (hex_EncodeToString rest))
  end.

(** ** The fingerprint functions *)

(** [func hashString(s string) string] *)
Definition hashString (s : string) : string :=
  hex_EncodeToString (Sum256 (list_byte_of_string s)).

(** The verb [%d] of [fmt.Sprintf] on an [int]: decimal digits, with a
    minus sign in front of a negative number. *)
Definition fmt_d (n : Z) : string := NilZero.string_of_int (Z.to_int n).

(** [func GenerateSastFingerprint(file, ruleID string, startLine int) string],
    with [fmt.Sprintf("%s:%s:%d", ...)] written out. *)
Definition GenerateSastFingerprint (file ruleID : string) (startLine : Z) : string :=
  let raw := file +:+ ":" +:+ ruleID +:+ ":" +:+ fmt_d startLine in
  hashString raw.

(** [func GenerateScaFingerprint(pkgName, pkgVersion, vulnID string) string] *)
Definition GenerateScaFingerprint (pkgName pkgVersion vulnID : string) : string :=
  let raw := pkgName +:+ ":" +:+ pkgVersion +:+ ":" +:+ vulnID in
  hashString raw.

(** [func GenerateSecretFingerprint(file, ruleID string, startLine int,
    secretValue string) string]; [hashString(secretValue)[:8]] is the
    substring of the first eight bytes. *)
Definition GenerateSecretFingerprint (file ruleID : string) (startLine : Z)
    (secretValue : string) : string :=
  let secretHash := substring 0 8 (hashString secretValue) in
  let raw := file +:+ ":" +:+ ruleID +:+ ":" +:+ fmt_d startLine +:+ ":"
             +:+ secretHash in
  hashString raw.

(** The fingerprint as the specification words it: the hex SHA-256 digest
    of the fields joined with [:]. *)
Fixpoint join_colon (fields : list string) : string :=
  match fields with
  | [] => ""
  | [f] => f
  | f :: rest => f +:+ ":" +:+ join_colon rest
  end.

Definition spec_fingerprint (fields : list string) : string :=
  hex_EncodeToString (Sum256 (list_byte_of_string (join_colon fields))).

Definition is_hex_digit (c : ascii) : bool :=
  let n := N_of_ascii c in
  ((48 <=? n) && (n <=? 57) || (97 <=? n) && (n <=? 102))%N.

(* ===================================================================== *)
(** * CVSS score handling *)
(* ===================================================================== *)

(** [type CVSSSource string] *)
Abbreviation CVSSSource := string (only parsing).

Definition CVSSSourceNVD : CVSSSource := "nvd".
Definition CVSSSourceGHSA : CVSSSource := "ghsa".
Definition CVSSSourceRedHat : CVSSSource := "redhat".
Definition CVSSSourceBitnami : CVSSSource := "bitnami".

(** [type CVSSData struct] *)
Record CVSSData := mkCVSSData {
  Source : CVSSSource;
  Score : float;
  Vector : string
}.

(** [var CVSSPriority]: higher priority sources come first. *)
Definition CVSSPriority : list CVSSSource :=
  [CVSSSourceNVD; CVSSSourceGHSA; CVSSSourceRedHat; CVSSSourceBitnami].

(** The body of the [for _, source := range ...] loop of [SelectBestCVSS],
    over an arbitrary priority slice: the first source found in [cvssMap]
    with [data.Score > 0] ends the loop. *)
Fixpoint selectFrom (prio : list CVSSSource) (cvssMap : gmap string CVSSData)
  : option CVSSData :=
  match prio with
  | [] => None
  | source :: rest =>
      match cvssMap !! source with
      | Some data =>
          if (0 <? Score data)%float then Some data
          else selectFrom rest cvssMap
      | None => selectFrom rest cvssMap
      end
  end.

(** [func SelectBestCVSS(cvssMap map[CVSSSource]CVSSData) *CVSSData];
    [nil] is [None]. *)
Definition SelectBestCVSS (cvssMap : gmap string CVSSData) : option CVSSData :=
  selectFrom CVSSPriority cvssMap.

(** A source is usable in a mapping when it is present with a strictly
    positive score. *)
Definition usable (m : gmap string CVSSData) (src : string) : bool :=
  match m !! src with
  | Some d => (0 <? Score d)%float
  | None => false
  end.

(** The mapping of the specification's example: GHSA scores 5.0 and
    Red Hat scores 9.0. *)
Definition ghsa_record : CVSSData := mkCVSSData CVSSSourceGHSA 5.0 "".
Definition redhat_record : CVSSData := mkCVSSData CVSSSourceRedHat 9.0 "".
Definition ghsa_redhat : gmap string CVSSData :=
  <[CVSSSourceGHSA := ghsa_record]> (<[CVSSSourceRedHat := redhat_record]> ∅).

(* ===================================================================== *)
(** * Severity mapping *)
(* ===================================================================== *)

(** [func SeverityFromCVSS(score float64) string] *)
Definition SeverityFromCVSS (score : float) : string :=
  if (9.0 <=? score)%float then "critical"
  else if (7.0 <=? score)%float then "high"
  else if (4.0 <=? score)%float then "medium"
  else if (0 <? score)%float then "low"
  else "info".

(** The five canonical levels, most severe first. *)
Definition severity_levels : list string :=
  ["critical"; "high"; "medium"; "low"; "info"].

(** ** Strings of the Go runtime used by the normalisers *)

(** UTF-8 encodings of the runes for which [unicode.IsSpace] holds:
    the six ASCII ones, U+0085, U+00A0, U+1680, U+2000..U+200A, U+2028,
    U+2029, U+202F, U+205F and U+3000. *)
Definition space_runes : list string :=
  map str_of_codes
    [ [9%N]; [10%N]; [11%N]; [12%N]; [13%N]; [32%N];
      [194%N; 133%N]; [194%N; 160%N];
      [225%N; 154%N; 128%N];
      [226%N; 128%N; 128%N]; [226%N; 128%N; 129%N]; [226%N; 128%N; 130%N];
      [226%N; 128%N; 131%N]; [226%N; 128%N; 132%N]; [226%N; 128%N; 133%N];
      [226%N; 128%N; 134%N]; [226%N; 128%N; 135%N]; [226%N; 128%N; 136%N];
      [226%N; 128%N; 137%N]; [226%N; 128%N; 138%N];
      [226%N; 128%N; 168%N]; [226%N; 128%N; 169%N]; [226%N; 128%N; 175%N];
      [226%N; 129%N; 159%N];
      [227%N; 128%N; 128%N] ].

Fixpoint drop_str (n : nat) (s : string) : string :=
  match n, s with
  | O, _ => s
  | S n', String _ s' => drop_str n' s'
  | S _, EmptyString => EmptyString
  end.

(** The bytes of [s] in reverse order. *)
Definition rev_str (s : string) : string :=
  string_of_list_ascii (rev (list_ascii_of_string s)).

(** Removes one leading rune out of [runes], when [s] starts with one. *)
Definition strip_rune (runes : list string) (s : string) : option string :=
  match find (fun r => String.prefix r s) runes with
  | Some r => Some (drop_str (String.length r) s)
  | None => None
  end.

Fixpoint trim_left_fuel (fuel : nat) (runes : list string) (s : string) : string :=
  match fuel with
  | O => s
  | S fuel' =>
      match strip_rune runes s with
      | Some s' => trim_left_fuel fuel' runes s'
      | None => s
      end
  end.

(** [strings.TrimLeftFunc(s, unicode.IsSpace)]: every stripped rune takes
    at least one byte, so [length s] rounds are enough. *)
Definition TrimLeftSpace (s : string) : string :=
  trim_left_fuel (String.length s) space_runes s.

(** [strings.TrimRightFunc(s, unicode.IsSpace)], read from the end: the
    last rune of [s] is a space exactly when the bytes of [s] reversed
    start with a reversed space encoding. *)
Definition TrimRightSpace (s : string) : string :=
  rev_str
    (trim_left_fuel (String.length s) (map rev_str space_runes) (rev_str s)).

(** [strings.TrimSpace] *)
Definition TrimSpace (s : string) : string := TrimRightSpace (TrimLeftSpace s).

Definition is_lower (c : ascii) : bool :=
  ((97 <=? N_of_ascii c) && (N_of_ascii c <=? 122))%N.

Definition is_upper (c : ascii) : bool :=
  ((65 <=? N_of_ascii c) && (N_of_ascii c <=? 90))%N.

Definition upper_byte (c : ascii) : ascii :=
  if is_lower c then chr (N_of_ascii c - 32) else c.

Definition lower_byte (c : ascii) : ascii :=
  if is_upper c then chr (N_of_ascii c + 32) else c.

(** [strings.ToUpper].  ASCII letters are mapped bytewise.  Outside ASCII,
    the only runes whose upper case is an ASCII letter are U+0131 (bytes
    C4 B1, upper case [I]) and U+017F (bytes C5 BF, upper case [S]); every
    other rune outside ASCII has an upper case outside ASCII, and its bytes
    are kept as they are. *)
Fixpoint ToUpper (s : string) : string :=
  match s with
  | EmptyString => EmptyString
  | String c s' =>
      match s' with
      | String d s'' =>
          if (N_of_ascii c =? 196)%N && (N_of_ascii d =? 177)%N
          then String "I" (ToUpper s'')
          else if (N_of_ascii c =? 197)%N && (N_of_ascii d =? 191)%N
          then String "S" (ToUpper s'')
          else String (upper_byte c) (ToUpper s')
      | EmptyString => String (upper_byte c) EmptyString
      end
  end.

(** [strings.ToLower].  Outside ASCII, the only runes whose lower case is
    an ASCII letter are U+0130 (bytes C4 B0, lower case [i]) and U+212A
    (bytes E2 84 AA, lower case [k]). *)
Fixpoint ToLower (s : string) : string :=
  match s with
  | EmptyString => EmptyString
  | String c s' =>
      match s' with
      | String d s'' =>
          if (N_of_ascii c =? 196)%N && (N_of_ascii d =? 176)%N
          then String "i" (ToLower s'')
          else
            match s'' with
            | String e s''' =>
                if (N_of_ascii c =? 226)%N && (N_of_ascii d =? 132)%N
                   && (N_of_ascii e =? 170)%N
                then String "k" (ToLower s''')
                else String (lower_byte c) (ToLower s')
            | EmptyString => String (lower_byte c) (ToLower s')
            end
      | EmptyString => String (lower_byte c) EmptyString
      end
  end.

(** [strings.Contains(s, substr)] *)
Fixpoint Contains (s substr : string) : bool :=
  String.prefix substr s ||
  match s with
  | EmptyString => false
  | String _ s' => Contains s' substr
  end.

(** The ASCII white space bytes: tab, line feed, vertical tab, form feed,
    carriage return and space. *)
Definition ascii_space (c : ascii) : bool :=
  let n := N_of_ascii c in ((9 <=? n) && (n <=? 13) || (n =? 32))%N.

Definition is_letter (c : ascii) : bool := is_lower c || is_upper c.

(** [w] spells [label] when letter case is ignored: byte by byte, it has
    the byte of [label] or its lower-case form. *)
Fixpoint case_variant (w label : string) : bool :=
  match w, label with
  | EmptyString, EmptyString => true
  | String c w', String l label' =>
      (Ascii.eqb c l || Ascii.eqb c (lower_byte l)) && case_variant w' label'
  | _, _ => false
  end.

(** [func NormalizeSeverity(severity string) string] *)
Definition NormalizeSeverity (severity : string) : string :=
  let u := ToUpper (TrimSpace severity) in
  if String.eqb u "CRITICAL" then "critical"
  else if String.eqb u "HIGH" || String.eqb u "ERROR" then "high"
  else if String.eqb u "MEDIUM" || String.eqb u "MODERATE" || String.eqb u "WARNING"
  then "medium"
  else if String.eqb u "LOW" then "low"
  else if String.eqb u "INFO" || String.eqb u "INFORMATIONAL" || String.eqb u "NOTE"
  then "info"
  else "info".

(** The labels [NormalizeSeverity] recognises, with their levels. *)
Definition severity_labels : list (string * string) :=
  [ ("CRITICAL", "critical");
    ("HIGH", "high"); ("ERROR", "high");
    ("MEDIUM", "medium"); ("MODERATE", "medium"); ("WARNING", "medium");
    ("LOW", "low");
    ("INFO", "info"); ("INFORMATIONAL", "info"); ("NOTE", "info") ].

(* ===================================================================== *)
(** * Package type detection *)
(* ===================================================================== *)

(** [type PackageType string] *)
Abbreviation PackageType := string (only parsing).

Definition PackageTypeMaven : PackageType := "maven".
Definition PackageTypeNPM : PackageType := "npm".
Definition PackageTypePyPI : PackageType := "pip".
Definition PackageTypeGo : PackageType := "gomod".
Definition PackageTypeCargo : PackageType := "cargo".
Definition PackageTypeNuGet : PackageType := "nuget".
Definition PackageTypeGem : PackageType := "gem".
Definition PackageTypeComposer : PackageType := "composer".

(** [func DetectPackageType(filename string) PackageType] *)
Definition DetectPackageType (filename : string) : PackageType :=
  let lower := ToLower filename in
  if Contains lower "pom.xml" || Contains lower ".pom" then PackageTypeMaven
  else if Contains lower "package.json" || Contains lower "package-lock.json"
          || Contains lower "yarn.lock" then PackageTypeNPM
  else if Contains lower "requirements.txt" || Contains lower "setup.py"
          || Contains lower "pipfile" || Contains lower "pyproject.toml"
  then PackageTypePyPI
  else if Contains lower "go.mod" || Contains lower "go.sum" then PackageTypeGo
  else if Contains lower "cargo.toml" || Contains lower "cargo.lock"
  then PackageTypeCargo
  else if Contains lower ".csproj" || Contains lower "packages.config"
          || Contains lower ".nuspec" then PackageTypeNuGet
  else if Contains lower "gemfile" || Contains lower ".gemspec" then PackageTypeGem
  else if Contains lower "composer.json" || Contains lower "composer.lock"
  then PackageTypeComposer
  else "".

(** The marker names of each ecosystem, in the order of the [switch]. *)
Definition package_markers : list (PackageType * list string) :=
  [ (PackageTypeMaven, ["pom.xml"; ".pom"]);
    (PackageTypeNPM, ["package.json"; "package-lock.json"; "yarn.lock"]);
    (PackageTypePyPI, ["requirements.txt"; "setup.py"; "pipfile"; "pyproject.toml"]);
    (PackageTypeGo, ["go.mod"; "go.sum"]);
    (PackageTypeCargo, ["cargo.toml"; "cargo.lock"]);
    (PackageTypeNuGet, [".csproj"; "packages.config"; ".nuspec"]);
    (PackageTypeGem, ["gemfile"; ".gemspec"]);
    (PackageTypeComposer, ["composer.json"; "composer.lock"]) ].



(** The detector as the specification words it: the identifier of the
    first ecosystem of [table] one of whose marker names occurs in the
    lower-cased file name, and the empty identifier when none does. *)
Fixpoint detect_by_markers (table : list (string * list string)) (lower : string)
  : string :=
  match table with
  | [] => ""
  | (t, markers) :: rest =>
      if existsb (Contains lower) markers then t
      else detect_by_markers rest lower
  end.

(** The identifiers [DetectPackageType] can return. *)
Definition package_types : list string :=
  [PackageTypeMaven; PackageTypeNPM; PackageTypePyPI; PackageTypeGo;
   PackageTypeCargo; PackageTypeNuGet; PackageTypeGem; PackageTypeComposer; ""].

(* ===================================================================== *)
(** * Scanner installation check *)
(* ===================================================================== *)

(** [cmd.Output]: the command is started with its standard output copied
    to a buffer, then waited for.  The failures of [cmd.Start] come in the
    order of [os/exec]: the lookup, a context that is done, the pipes, the
    process; a copy that fails is reported by [cmd.Wait] when nothing else
    failed.  Without a start, the buffer is empty. *)
Definition Cmd_Output (ctx : Context) (inv : Invocation)
  : list Byte.byte * option error :=
  let started :=
    match lookup_err inv with
    | Some e => Some e
    | None => if done_at_start ctx inv then Some (ctx_err ctx) else None
    end in
  let started :=
    match started, stdout_pipe_err inv, stderr_pipe_err inv with
    | Some e, _, _ => Some e
    | None, Some e, _ => Some e
    | None, None, Some e => Some e
    | None, None, None => fork_err inv
    end in
  match started with
  | Some e => ([], Some e)
  | None =>
      (delivered (stdout_stream inv),
       match Cmd_Wait ctx inv, ending (stdout_stream inv) with
       | Some e, _ => Some e
       | None, ReadFailed => Some ErrPipe
       | None, EOF => None
       end)
  end.

Definition is_line_break (c : ascii) : bool :=
  ((N_of_ascii c =? 10) || (N_of_ascii c =? 13))%N.

(** The loop of [indexNewline], from byte index [i].  The [range] loop
    visits the runes of [s] with their byte index; a line feed or carriage
    return byte is always a rune of its own, so the first one is found at
    its byte index. *)
Fixpoint indexNewline_from (i : Z) (s : string) : Z :=
  match s with
  | EmptyString => -1
  | String c s' => if is_line_break c then i else indexNewline_from (i + 1) s'
  end.

(** [func indexNewline(s string) int] *)
Definition indexNewline (s : string) : Z := indexNewline_from 0 s.

(** [func CheckBinaryInstalled(ctx context.Context, binary string,
    versionArgs ...string) (bool, string, error)] *)
Definition CheckBinaryInstalled (rt : Runtime) (ctx : Context) (binary : string)
    (versionArgs : list string) : bool * string * option error :=
  let versionArgs :=
    if (length versionArgs =? 0)%nat then ["--version"] else versionArgs in
  let cmd := mkCmd binary versionArgs "" None in
  let '(output, err) := Cmd_Output ctx (spawn rt cmd) in
  match err with
  | Some _ => (false, "", None)
  | None =>
      let version := string_of_list_byte output in
      let idx := indexNewline version in
      let version :=
        if (0 <? idx)%Z then substring 0 (Z.to_nat idx) version else version in
      (true, version, None)
  end.

(* ===================================================================== *)
(** * Masking utilities *)
(* ===================================================================== *)

(** [func MaskSecret(secret string) string]; the slices [secret[:3]] and
    [secret[len(secret)-3:]] are taken on bytes. *)
Definition MaskSecret (secret : string) : string :=
  if (String.length secret <=? 8)%nat then "****"
  else substring 0 3 secret +:+ "****"
       +:+ drop_str (String.length secret - 3) secret.

(** [func MaskAPIKey(key string) string] *)
Definition MaskAPIKey (key : string) : string :=
  if (String.length key <=? 10)%nat then "****"
  else substring 0 4 key +:+ "..."
       +:+ drop_str (String.length key - 4) key.

(** ** Notions used to state the further properties *)

(** The version [CheckBinaryInstalled] makes of the output of the binary:
    lines 236 to 240. *)
Definition version_line (version : string) : string :=
  if (0 <? indexNewline version)%Z
  then substring 0 (Z.to_nat (indexNewline version)) version
  else version.

(** The command [CheckBinaryInstalled] runs: lines 226 to 230. *)
Definition version_cmd (binary : string) (versionArgs : list string) : Cmd :=
  mkCmd binary
    (if (length versionArgs =? 0)%nat then ["--version"] else versionArgs) "" None.

Definition no_line_break (s : string) : bool :=
  all_bytes (fun c => negb (is_line_break c)) s.

(** The lines of a byte sequence with their terminators: each run of bytes
    up to and including a line feed, and a last run without line feed when
    it is not empty. *)
Fixpoint terminated_lines (data : list Byte.byte) : list (list Byte.byte) :=
  match data with
  | [] => []
  | b :: rest =>
      if Byte.eqb b newline then [b] :: terminated_lines rest
      else match terminated_lines rest with
           | [] => [[b]]
           | l :: ls => (b :: l) :: ls
           end
  end.

(** The rank of a severity level, from info up to critical. *)
Definition severity_rank (level : string) : nat :=
  if String.eqb level "critical" then 4
  else if String.eqb level "high" then 3
  else if String.eqb level "medium" then 2
  else if String.eqb level "low" then 1
  else 0.

(** Sample runs of a version probe: a binary that prints its version on the
    first line, and one that prints an empty line first. *)
Definition version_output : string :=
  "Version: 0.50.1" +:+ String "010" "Vulnerability DB: 2".
Definition banner_output : string :=
  String "010" ("trivy 0.50.1" +:+ String "010" "").

Definition inv_version : Invocation :=
  mkInvocation None None None None
    (mkStream (list_byte_of_string version_output) EOF) quiet 1000000 0 None
    1000 1200000.
Definition inv_banner : Invocation :=
  mkInvocation None None None None
    (mkStream (list_byte_of_string banner_output) EOF) quiet 1000000 0 None
    1000 1200000.

Definition rt_version : Runtime := rt_of inv_version.
Definition rt_banner : Runtime := rt_of inv_banner.


(** The three stages at which an invocation can fail to start, as the
    runners name them in the error they return. *)
Definition start_stages : list string :=
  ["failed to create stdout pipe"; "failed to create stderr pipe";
   "failed to start scanner"].

(** The shape of what a runner returns: a result or an error, never both
    and never neither; in a result, an exit code other than zero only
    without [Error]; and an error that wraps the cause under the name of
    the stage that failed. *)
Definition result_shape (res : option ExecResult * option error) : Prop :=
  match res with
  | (Some r, None) => ExitCode r <> 0 -> Error r = None
  | (None, Some e) =>
      exists stage cause, e = Errorf stage cause /\ In stage start_stages
  | _ => False
  end.

(** The sample mapping with a record of a source outside the priority
    list. *)
Definition osv_record : CVSSData := mkCVSSData "osv" 9.8 "".
Definition ghsa_redhat_osv : gmap string CVSSData :=
  <["osv" := osv_record]> ghsa_redhat.

(** [w] spells the lower-case name [marker] when letter case is ignored:
    byte by byte, it has the byte of [marker] or its upper-case form. *)
Fixpoint spells_lower (w marker : string) : bool :=
  match w, marker with
  | EmptyString, EmptyString => true
  | String c w', String m marker' =>
      (Ascii.eqb c m || Ascii.eqb c (upper_byte m)) && spells_lower w' marker'
  | _, _ => false
  end.

(** All the marker names, of every ecosystem. *)
Definition all_markers : list string := flat_map snd package_markers.

(** An ASCII byte that is not an upper-case letter. *)
Definition plain_lower (m : ascii) : bool :=
  (N_of_ascii m <? 128)%N && negb (is_upper m).

(** [s] is empty or starts with an ASCII byte. *)
Definition ascii_head (s : string) : bool :=
  match s with
  | EmptyString => true
  | String a _ => (N_of_ascii a <? 128)%N
  end.

(* ===================================================================== *)
(** * Properties *)
(* ===================================================================== *)

(** ** Byte strings *)

Lemma append_cons (c : ascii) (s t : string) :
  String c s +:+ t = String c (s +:+ t).
Proof. reflexivity. Qed.

Lemma append_nil_l (t : string) : "" +:+ t = t.
Proof. reflexivity. Qed.

Lemma list_ascii_of_string_app (a b : string) :
  list_ascii_of_string (a +:+ b) =
  (list_ascii_of_string a ++ list_ascii_of_string b)%list.
Proof.
  induction a as [|c a IH]; [reflexivity|].
  rewrite append_cons. simpl. rewrite IH. reflexivity.
Qed.

Lemma string_of_list_ascii_app (l k : list ascii) :
  string_of_list_ascii (l ++ k) =
  string_of_list_ascii l +:+ string_of_list_ascii k.
Proof.
  induction l as [|c l IH]; [reflexivity|].
  simpl. rewrite IH, append_cons. reflexivity.
Qed.

Lemma length_append (a b : string) :
  String.length (a +:+ b) = (String.length a + String.length b)%nat.
Proof.
  induction a as [|c a IH]; [reflexivity|].
  rewrite append_cons. simpl. rewrite IH. reflexivity.
Qed.

(** ** The runner: results, errors and durations *)

(** Both runners, seen from the failure to start: they differ in the
    command and in the way the two streams are captured only. *)
Lemma ExecuteScanner_unfold (rt : Runtime) (ctx : Context) (cfg : ExecConfig) :
  let inv := ExecuteScanner_inv rt ctx cfg in
  let ctx' := run_context ctx cfg in
  ExecuteScanner rt ctx cfg =
  match start_failure ctx' inv with
  | Some e => (None, Some e)
  | None =>
      let out := fst (captureOutput (stdout_stream inv) (Verbose cfg) "stdout") in
      let err := fst (captureOutput (stderr_stream inv) (Verbose cfg) "stderr") in
      wait_report out err (Milliseconds (returned_ns ctx' inv))
        (Cmd_Wait_drained ctx' inv)
  end.
Proof.
  unfold ExecuteScanner, ExecuteScanner_inv, start_failure, run_context, wait_report.
  cbn zeta.
  destruct (stdout_pipe_err _); [reflexivity|].
  destruct (stderr_pipe_err _); [reflexivity|].
  destruct (Cmd_Start _ _); [reflexivity|].
  destruct (Cmd_Wait_drained _ _) as [[]|]; reflexivity.
Qed.

Lemma StreamScanner_unfold (rt : Runtime) (ctx : Context) (cfg : ExecConfig)
    (handler : bool) :
  let inv := StreamScanner_inv rt ctx cfg handler in
  let ctx' := run_context ctx cfg in
  StreamScanner rt ctx cfg handler =
  match start_failure ctx' inv with
  | Some e => (None, Some e)
  | None =>
      let out := fst (streamWithHandler (stdout_stream inv) handler false) in
      let err := fst (streamWithHandler (stderr_stream inv) handler true) in
      wait_report out err (Milliseconds (returned_ns ctx' inv))
        (Cmd_Wait_drained ctx' inv)
  end.
Proof.
  unfold StreamScanner, StreamScanner_inv, start_failure, run_context, wait_report.
  cbn zeta.
  destruct (stdout_pipe_err _); [reflexivity|].
  destruct (stderr_pipe_err _); [reflexivity|].
  destruct (Cmd_Start _ _); [reflexivity|].
  destruct (Cmd_Wait_drained _ _) as [[]|]; reflexivity.
Qed.

(** A context made by [WithTimeout] is done within the timeout. *)
Lemma WithTimeout_done (parent : Context) (timeout : Z) :
  exists d, done_in (WithTimeout parent timeout) = Some d /\ d <= timeout.
Proof.
  unfold WithTimeout. destruct (done_in parent) as [d|] eqn:E.
  - destruct (d <=? timeout)%Z eqn:L.
    + exists d. split; [exact E|lia].
    + exists timeout. split; [reflexivity|lia].
  - exists timeout. split; [reflexivity|lia].
Qed.

(** Under a positive timeout, the time left at the start is what the setup
    left of the timeout, or less. *)
Lemma time_left_timeout (ctx : Context) (cfg : ExecConfig) (inv : Invocation) :
  0 < Timeout cfg ->
  exists remaining, time_left (run_context ctx cfg) inv = Some remaining /\
               remaining <= Timeout cfg - Z.pos (setup_ns inv).
Proof.
  intros Hpos. unfold run_context, time_left.
  destruct (0 <? Timeout cfg)%Z eqn:E; [|lia].
  destruct (WithTimeout_done ctx (Timeout cfg)) as (d & -> & Hle).
  eexists. split; [reflexivity|lia].
Qed.




(** The result of a started invocation carries the clock reading. *)
Lemma wait_report_duration (out err : list Byte.byte) (ms : Z) (w : option error) :
  exists r, wait_report out err ms w = (Some r, None) /\ DurationMs r = ms.
Proof.
  unfold wait_report. destruct w as [[]|]; eexists; split; reflexivity.
Qed.



(** [cmd.Wait] after the pipes are drained, case by case. *)
Lemma Cmd_Wait_drained_failed (ctx : Context) (inv : Invocation) (e : error) :
  wait_err inv = Some e -> Cmd_Wait_drained ctx inv = Some e.
Proof.
  intros H. unfold Cmd_Wait_drained.
  destruct (collect_child ctx inv) as [ps watch]. rewrite H. reflexivity.
Qed.

Lemma Cmd_Wait_drained_killed (ctx : Context) (inv : Invocation) (remaining : Z) :
  wait_err inv = None -> time_left ctx inv = Some remaining ->
  remaining < run_ns inv ->
  Cmd_Wait_drained ctx inv = Some (ExitError (Signaled SIGKILL)).
Proof.
  intros Hw Hl Hlt. unfold Cmd_Wait_drained, collect_child. rewrite Hl, Hw.
  cbv beta iota.
  destruct (remaining <? run_ns inv)%Z eqn:L; [reflexivity|lia].
Qed.

Lemma Cmd_Wait_drained_ended (ctx : Context) (inv : Invocation) :
  wait_err inv = None ->
  (forall remaining, time_left ctx inv = Some remaining -> run_ns inv <= remaining) ->
  Cmd_Wait_drained ctx inv =
    if (exit_status inv =? 0)%Z
    then match time_left ctx inv with
         | Some remaining =>
             if (remaining <? drained_ns inv)%Z then Some (ctx_err ctx) else None
         | None => None
         end
    else Some (ExitError (Exited (exit_status inv))).
Proof.
  intros Hw H. unfold Cmd_Wait_drained, collect_child. rewrite Hw.
  destruct (time_left ctx inv) as [remaining|].
  - specialize (H remaining eq_refl).
    destruct (remaining <? run_ns inv)%Z eqn:L; [lia|].
    destruct (remaining <? drained_ns inv)%Z; cbn [ProcessState_Success];
      destruct (exit_status inv =? 0)%Z; reflexivity.
  - cbn [ProcessState_Success]. destruct (exit_status inv =? 0)%Z; reflexivity.
Qed.

(** What the runners make of the child that [cmd.Wait] collects after the
    pipes are drained. *)
Lemma wait_report_status (ctx : Context) (inv : Invocation)
    (out err : list Byte.byte) (ms : Z) (r : ExecResult) :
  wait_report out err ms (Cmd_Wait_drained ctx inv) = (Some r, None) ->
  (wait_err inv = None ->
   forall remaining, time_left ctx inv = Some remaining -> remaining < run_ns inv ->
   ExitCode r = -1 /\ Error r = None) /\
  (wait_err inv = None ->
   (forall remaining, time_left ctx inv = Some remaining -> run_ns inv <= remaining) ->
   exit_status inv <> 0 ->
   ExitCode r = exit_status inv /\ Error r = None) /\
  (wait_err inv = None -> is_ExitError (ctx_err ctx) = false ->
   forall remaining, time_left ctx inv = Some remaining ->
   run_ns inv <= remaining < drained_ns inv -> exit_status inv = 0 ->
   ExitCode r = 0 /\ Error r = Some (ctx_err ctx)) /\
  (wait_err inv = None ->
   (forall remaining, time_left ctx inv = Some remaining ->
    run_ns inv <= remaining /\ drained_ns inv <= remaining) ->
   exit_status inv = 0 ->
   ExitCode r = 0 /\ Error r = None) /\
  (forall e, wait_err inv = Some e -> is_ExitError e = false ->
   ExitCode r = 0 /\ Error r = Some e) /\
  (forall e, Error r = Some e ->
   ExitCode r = 0 /\
   (wait_err inv = Some e \/
    (wait_err inv = None /\ e = ctx_err ctx /\ exit_status inv = 0 /\
     exists remaining, time_left ctx inv = Some remaining /\
                       run_ns inv <= remaining < drained_ns inv))).
Proof.
  intros Hr. split; [|split; [|split; [|split; [|split]]]].
  - intros Hw remaining Hl Hlt.
    rewrite (Cmd_Wait_drained_killed ctx inv remaining Hw Hl Hlt) in Hr.
    injection Hr as <-. split; reflexivity.
  - intros Hw Hall Hs. rewrite (Cmd_Wait_drained_ended ctx inv Hw Hall) in Hr.
    destruct (exit_status inv =? 0)%Z eqn:E; [apply Z.eqb_eq in E; lia|].
    injection Hr as <-. split; reflexivity.
  - intros Hw Hc remaining Hl [H1 H2] Hs.
    assert (forall t, time_left ctx inv = Some t -> run_ns inv <= t) as Hall
      by (intros t Ht; rewrite Hl in Ht; injection Ht as <-; exact H1).
    rewrite (Cmd_Wait_drained_ended ctx inv Hw Hall), Hl, Hs in Hr.
    cbn [Z.eqb] in Hr.
    destruct (remaining <? drained_ns inv)%Z eqn:L; [|lia].
    unfold wait_report in Hr.
    destruct (ctx_err ctx); try discriminate Hc; injection Hr as <-;
      split; reflexivity.
  - intros Hw Hall Hs.
    assert (forall t, time_left ctx inv = Some t -> run_ns inv <= t) as Hall'
      by (intros t Ht; apply (Hall t Ht)).
    rewrite (Cmd_Wait_drained_ended ctx inv Hw Hall'), Hs in Hr.
    cbn [Z.eqb] in Hr.
    destruct (time_left ctx inv) as [remaining|] eqn:Hl.
    + destruct (Hall remaining eq_refl) as [_ Hd].
      destruct (remaining <? drained_ns inv)%Z eqn:L; [lia|].
      injection Hr as <-. split; reflexivity.
    + injection Hr as <-. split; reflexivity.
  - intros e Hw He. rewrite (Cmd_Wait_drained_failed ctx inv e Hw) in Hr.
    unfold wait_report in Hr.
    destruct e; try discriminate He; injection Hr as <-; split; reflexivity.
  - intros e He. destruct (wait_err inv) as [e0|] eqn:Hw.
    + rewrite (Cmd_Wait_drained_failed ctx inv e0 Hw) in Hr.
      unfold wait_report in Hr.
      destruct e0; injection Hr as <-; cbn [Error] in He; try discriminate He;
        injection He as <-; (split; [reflexivity|left; reflexivity]).
    + destruct (time_left ctx inv) as [remaining|] eqn:Hl.
      * destruct (Z.ltb_spec remaining (run_ns inv)) as [Hlt|Hge].
        -- rewrite (Cmd_Wait_drained_killed ctx inv remaining Hw Hl Hlt) in Hr.
           injection Hr as <-. discriminate He.
        -- assert (forall t, time_left ctx inv = Some t -> run_ns inv <= t) as Hall
             by (intros t Ht; rewrite Hl in Ht; injection Ht as <-; exact Hge).
           rewrite (Cmd_Wait_drained_ended ctx inv Hw Hall), Hl in Hr.
           destruct (exit_status inv =? 0)%Z eqn:Hs;
             [|injection Hr as <-; discriminate He].
           apply Z.eqb_eq in Hs.
           destruct (remaining <? drained_ns inv)%Z eqn:L;
             [|injection Hr as <-; discriminate He].
           unfold wait_report in Hr.
           destruct (ctx_err ctx); injection Hr as <-; cbn [Error] in He;
             try discriminate He; injection He as <-;
             (split; [reflexivity|right; split; [reflexivity|];
                split; [reflexivity|]; split; [exact Hs|];
                exists remaining; split; [reflexivity|lia]]).
      * assert (forall t, time_left ctx inv = Some t -> run_ns inv <= t) as Hall
          by (intros t Ht; rewrite Hl in Ht; discriminate Ht).
        rewrite (Cmd_Wait_drained_ended ctx inv Hw Hall), Hl in Hr.
        destruct (exit_status inv =? 0)%Z; injection Hr as <-; discriminate He.
Qed.

(** C2, as the code has it.  For an invocation that started, with either
    runner, when the wait itself does not fail: a child still running when
    its context is done, as one that outlives what the setup left of a
    positive timeout, is killed, and the result has the exit code -1 of a
    process ended by a signal and no [Error]; a child that ends by itself
    with a status other than zero has that status as exit code and no
    [Error], also when the context is done afterwards; a child that ends
    with status 0 has exit code 0, with the error of the context as [Error]
    when the context is done before both pipes are drained, and without
    [Error] otherwise.  When the wait fails with an error that is not an
    exit status, [Error] is that error and the exit code is 0.  [Error] is
    set in these two ways only. *)
Theorem runner_exit_status (rt : Runtime) (ctx : Context) (cfg : ExecConfig)
    (handler : bool) (inv : Invocation) (res : option ExecResult * option error) :
  (inv = ExecuteScanner_inv rt ctx cfg /\ res = ExecuteScanner rt ctx cfg) \/
  (inv = StreamScanner_inv rt ctx cfg handler /\
   res = StreamScanner rt ctx cfg handler) ->
  start_failure (run_context ctx cfg) inv = None ->
  exists r, res = (Some r, None) /\
    (wait_err inv = None ->
     forall remaining, time_left (run_context ctx cfg) inv = Some remaining ->
     remaining < run_ns inv ->
     ExitCode r = -1 /\ Error r = None) /\
    (wait_err inv = None -> 0 < Timeout cfg ->
     Timeout cfg - Z.pos (setup_ns inv) < run_ns inv ->
     ExitCode r = -1 /\ Error r = None) /\
    (wait_err inv = None ->
     (forall remaining, time_left (run_context ctx cfg) inv = Some remaining ->
      run_ns inv <= remaining) ->
     exit_status inv <> 0 ->
     ExitCode r = exit_status inv /\ Error r = None) /\
    (wait_err inv = None -> is_ExitError (ctx_err (run_context ctx cfg)) = false ->
     forall remaining, time_left (run_context ctx cfg) inv = Some remaining ->
     run_ns inv <= remaining < drained_ns inv -> exit_status inv = 0 ->
     ExitCode r = 0 /\ Error r = Some (ctx_err (run_context ctx cfg))) /\
    (wait_err inv = None ->
     (forall remaining, time_left (run_context ctx cfg) inv = Some remaining ->
      run_ns inv <= remaining /\ drained_ns inv <= remaining) ->
     exit_status inv = 0 ->
     ExitCode r = 0 /\ Error r = None) /\
    (forall e, wait_err inv = Some e -> is_ExitError e = false ->
     ExitCode r = 0 /\ Error r = Some e) /\
    (forall e, Error r = Some e ->
     ExitCode r = 0 /\
     (wait_err inv = Some e \/
      (wait_err inv = None /\ e = ctx_err (run_context ctx cfg) /\
       exit_status inv = 0 /\
       exists remaining, time_left (run_context ctx cfg) inv = Some remaining /\
                    run_ns inv <= remaining < drained_ns inv))).
Proof.
  intros Hres Hstart.
  assert (exists out err,
    res = wait_report out err (Milliseconds (returned_ns (run_context ctx cfg) inv))
            (Cmd_Wait_drained (run_context ctx cfg) inv)) as (out & err & ->).
  { destruct Hres as [[-> ->]|[-> ->]].
    - pose proof (ExecuteScanner_unfold rt ctx cfg) as U. cbn zeta in U.
      rewrite U, Hstart. eexists _, _. reflexivity.
    - pose proof (StreamScanner_unfold rt ctx cfg handler) as U. cbn zeta in U.
      rewrite U, Hstart. eexists _, _. reflexivity. }
  destruct (wait_report_duration out err
              (Milliseconds (returned_ns (run_context ctx cfg) inv))
              (Cmd_Wait_drained (run_context ctx cfg) inv)) as (r & Hr & _).
  destruct (wait_report_status (run_context ctx cfg) inv out err
              (Milliseconds (returned_ns (run_context ctx cfg) inv)) r Hr)
    as (K1 & K2 & K3 & K4 & K5 & K6).
  exists r. split; [exact Hr|]. split; [exact K1|].
  split; [|split; [exact K2|split; [exact K3|split; [exact K4|split;
    [exact K5|exact K6]]]]].
  intros Hw Hpos Hlong.
  destruct (time_left_timeout ctx cfg inv Hpos) as (remaining & Hl & Hle).
  apply (K1 Hw remaining Hl). lia.
Qed.

(** The scanner that would run for five seconds, under a timeout of
    100 ms. *)
Lemma runner_exit_status_witness :
  exists r, ExecuteScanner rt_slow Background cfg_timeout = (Some r, None) /\
            ExitCode r = -1 /\ Error r = None.
Proof.
  destruct (runner_exit_status rt_slow Background cfg_timeout false inv_slow
              (ExecuteScanner rt_slow Background cfg_timeout)
              (or_introl (conj eq_refl eq_refl)) eq_refl)
    as (r & Hr & _ & Hkill & _).
  exists r. split; [exact Hr|].
  apply Hkill; reflexivity.
Defined.

(** C2 fails as stated: the scanner killed at its timeout of 100 ms comes
    back with exit code -1 and without [Error]; and the scanner that exits
    with status 3 has exit code 3 and no [Error]. *)
Lemma timeout_kill_sets_no_error :
  ExecuteScanner rt_slow Background cfg_timeout =
    (Some (mkExecResult (-1) [] [] 100 None), None) /\
  StreamScanner rt_slow Background cfg_timeout true =
    (Some (mkExecResult (-1) [] [] 100 None), None) /\
  ExecuteScanner rt_findings Background cfg_plain =
    (Some (mkExecResult 3 [] [] 20 None), None).
Proof. repeat split; vm_compute; reflexivity. Qed.

(** Three runs under a timeout.  The scanner that exits with status 0 after
    1 ms while a descendant holds its pipes for a second, under a timeout of
    half a second: the deadline passes while the pipes are drained, and the
    result has exit code 0, the error of the context and the whole second
    as duration.  The scanner killed at 100 ms whose descendant holds the
    pipes for two seconds: exit code -1, no error, and two seconds as
    duration.  A timeout of one nanosecond: it is over before [cmd.Start],
    which fails. *)
Lemma runs_under_timeout :
  ExecuteScanner rt_lingering Background cfg_half_second =
    (Some (mkExecResult 0 [] [] 1001 (Some DeadlineExceeded)), None) /\
  ExecuteScanner rt_held Background cfg_timeout =
    (Some (mkExecResult (-1) [] [] 2001 None), None) /\
  ExecuteScanner rt_slow Background cfg_nanosecond =
    (None, Some (Errorf "failed to start scanner" DeadlineExceeded)).
Proof. repeat split; vm_compute; reflexivity. Qed.

(** ** The command the child is run with *)

Lemma env_overrides_In (env : gmap string string) (k v : string) :
  env !! k = Some v -> In (k +:+ "=" +:+ v) (env_overrides env).
Proof.
  intros H. unfold env_overrides.
  apply (in_map (fun kv => fst kv +:+ "=" +:+ snd kv) _ (k, v)).
  apply list_elem_of_In, elem_of_map_to_list, H.
Qed.

(** C6 holds for [ExecuteScanner] and fails for [StreamScanner].  Both run
    the child in [cfg.WorkDir].  [ExecuteScanner] gives it the caller's
    environment followed by one entry per override; [StreamScanner] never
    sets [cmd.Env], so its child gets the caller's environment alone: with
    the override TRIVY_TOKEN=s3, the entry reaches the child of the first
    and not the child of the second. *)
Theorem StreamScanner_drops_env_overrides :
  (forall rt cfg,
     Dir (ExecuteScanner_cmd rt cfg) = WorkDir cfg /\
     Dir (StreamScanner_cmd rt cfg) = WorkDir cfg) /\
  (forall rt cfg,
     child_env rt (ExecuteScanner_cmd rt cfg) =
       (Environ rt (StreamScanner_cmd rt cfg) ++ env_overrides (Env cfg))%list /\
     forall k v, Env cfg !! k = Some v ->
       In (k +:+ "=" +:+ v) (child_env rt (ExecuteScanner_cmd rt cfg))) /\
  (forall rt cfg,
     CmdEnv (StreamScanner_cmd rt cfg) = None /\
     child_env rt (StreamScanner_cmd rt cfg) = Environ rt (StreamScanner_cmd rt cfg)) /\
  Env cfg_env !! "TRIVY_TOKEN" = Some "s3" /\
  child_env rt_slow (ExecuteScanner_cmd rt_slow cfg_env) =
    ["PATH=/usr/bin"; "TRIVY_TOKEN=s3"] /\
  child_env rt_slow (StreamScanner_cmd rt_slow cfg_env) = ["PATH=/usr/bin"] /\
  ~ In "TRIVY_TOKEN=s3" (child_env rt_slow (StreamScanner_cmd rt_slow cfg_env)).
Proof.
  assert (Hs : forall rt cfg, CmdEnv (StreamScanner_cmd rt cfg) = None).
  { intros rt cfg. unfold StreamScanner_cmd.
    destruct (String.eqb (WorkDir cfg) ""); reflexivity. }
  assert (He : forall rt cfg,
    child_env rt (ExecuteScanner_cmd rt cfg) =
      (Environ rt (StreamScanner_cmd rt cfg) ++ env_overrides (Env cfg))%list).
  { intros rt cfg. unfold child_env at 1. unfold ExecuteScanner_cmd.
    fold (StreamScanner_cmd rt cfg).
    destruct (0 <? size (Env cfg))%nat eqn:E.
    - destruct (StreamScanner_cmd rt cfg); reflexivity.
    - rewrite (Hs rt cfg). apply Nat.ltb_ge in E.
      assert (Env cfg = ∅) as -> by (apply map_size_empty_iff; lia).
      unfold env_overrides. rewrite map_to_list_empty. simpl.
      rewrite app_nil_r. reflexivity. }
  split.
  { intros rt cfg. unfold ExecuteScanner_cmd, StreamScanner_cmd.
    destruct (String.eqb_spec (WorkDir cfg) "") as [->|_];
      destruct (0 <? size _)%nat; split; reflexivity. }
  split.
  { intros rt cfg. split; [apply He|]. intros k v H. rewrite He.
    apply in_or_app. right. apply env_overrides_In, H. }
  split.
  { intros rt cfg. split; [apply Hs|]. unfold child_env. rewrite Hs. reflexivity. }
  split; [vm_compute; reflexivity|].
  split; [vm_compute; reflexivity|].
  split; [vm_compute; reflexivity|].
  vm_compute. intros [H|[]]. discriminate H.
Qed.

(** ** Stream capture *)

Local Opaque MaxScanTokenSize.

Lemma byte_eqb_refl (b : Byte.byte) : Byte.eqb b b = true.
Proof. apply Byte.byte_dec_lb. reflexivity. Qed.

(** [ReadBytes] cuts the pending bytes in two; without error the line is
    not empty, and with an error nothing is left. *)
Lemma ReadBytes_spec (delim : Byte.byte) (pending : list Byte.byte) (e : read_end) :
  forall line rest err,
    ReadBytes delim pending e = (line, rest, err) ->
    pending = (line ++ rest)%list /\
    match err with
    | None => (0 < length line)%nat
    | Some _ => rest = []
    end.
Proof.
  induction pending as [|b pending IH]; intros line rest err H; simpl in H.
  - injection H as <- <- <-. split; reflexivity.
  - destruct (Byte.eqb b delim).
    + injection H as <- <- <-. split; [reflexivity|simpl; lia].
    + destruct (ReadBytes delim pending e) as [[line' rest'] err'] eqn:E.
      injection H as <- <- <-.
      destruct (IH line' rest' err' eq_refl) as [-> Herr].
      split; [reflexivity|]. destruct err'; [exact Herr|simpl; lia].
Qed.

(** With enough rounds, the loop of [captureOutput] appends every pending
    byte to the buffer, whatever the stream flag and the end of the
    stream. *)
Lemma captureLoop_all (fuel : nat) :
  forall pending e stream pre buf console,
    (length pending < fuel)%nat ->
    fst (captureLoop fuel pending e stream pre buf console) = (buf ++ pending)%list.
Proof.
  induction fuel as [|fuel IH]; intros pending e stream pre buf console Hf; [lia|].
  cbn [captureLoop].
  destruct (ReadBytes newline pending e) as [[line rest] err] eqn:E.
  destruct (ReadBytes_spec _ _ _ _ _ _ E) as [-> Herr].
  assert ((if (0 <? length line)%nat then (buf ++ line)%list else buf)
          = (buf ++ line)%list) as ->.
  { destruct line; [rewrite app_nil_r|]; reflexivity. }
  destruct err as [e'|].
  - subst rest. rewrite app_nil_r. reflexivity.
  - rewrite IH.
    + rewrite app_assoc. reflexivity.
    + rewrite length_app in Hf. lia.
Qed.

Lemma list_byte_of_string_app (a b : string) :
  list_byte_of_string (a +:+ b) =
  (list_byte_of_string a ++ list_byte_of_string b)%list.
Proof.
  unfold list_byte_of_string. rewrite list_ascii_of_string_app, map_app.
  reflexivity.
Qed.

(** The bytes [streamWithHandler] stores for a token. *)
Lemma stored_token (token : list Byte.byte) :
  list_byte_of_string (string_of_list_byte token +:+ String "010" "") =
  (token ++ [newline])%list.
Proof.
  rewrite list_byte_of_string_app, list_byte_of_string_of_list_byte.
  reflexivity.
Qed.

Lemma IndexByte_app_found (l rest : list Byte.byte) (c : Byte.byte) :
  IndexByte l c = None -> IndexByte (l ++ c :: rest) c = Some (length l).
Proof.
  induction l as [|b l IH]; simpl; intros H.
  - rewrite byte_eqb_refl. reflexivity.
  - destruct (Byte.eqb b c); [discriminate|].
    destruct (IndexByte l c); [discriminate|]. rewrite IH; reflexivity.
Qed.

Lemma IndexByte_firstn_none (n : nat) (l : list Byte.byte) (c : Byte.byte) :
  IndexByte l c = None -> IndexByte (firstn n l) c = None.
Proof.
  revert n. induction l as [|b l IH]; intros [|n] H; simpl in *; try reflexivity.
  destruct (Byte.eqb b c); [discriminate|].
  destruct (IndexByte l c); [discriminate|]. rewrite IH; reflexivity.
Qed.

(** The first line of the pending bytes, and what follows it. *)
Lemma split_lines_first (pending : list Byte.byte) :
  match split_lines pending with
  | [] => pending = []
  | l :: ls =>
      IndexByte l newline = None /\
      ((exists rest, pending = (l ++ newline :: rest)%list /\ split_lines rest = ls) \/
       (pending = l /\ ls = [] /\ l <> []))
  end.
Proof.
  induction pending as [|b pending IH]; [reflexivity|].
  cbn [split_lines]. destruct (Byte.eqb b newline) eqn:Eb.
  - apply Byte.byte_dec_bl in Eb. subst b. split; [reflexivity|].
    left. exists pending. split; reflexivity.
  - destruct (split_lines pending) as [|l ls].
    + subst pending. split; [simpl; rewrite Eb; reflexivity|].
      right. repeat split. discriminate.
    + destruct IH as [Hl IH]. split; [simpl; rewrite Eb, Hl; reflexivity|].
      destruct IH as [(rest & -> & Hrest)|(-> & -> & Hne)].
      * left. exists rest. split; [reflexivity|exact Hrest].
      * right. repeat split. discriminate.
Qed.

(** [Scan] on a line that fits the buffer, with its terminator. *)
Lemma Scan_line (l rest : list Byte.byte) :
  IndexByte l newline = None -> (length l < MaxScanTokenSize)%nat ->
  Scan (l ++ newline :: rest) = Some (dropCR l, rest).
Proof.
  intros Hl Hlen. unfold Scan.
  rewrite take_app_ge by lia.
  destruct (MaxScanTokenSize - length l)%nat as [|k] eqn:Ek; [lia|].
  cbn [firstn]. rewrite (IndexByte_app_found l _ newline Hl).
  rewrite take_app_length.
  replace (l ++ newline :: rest)%list with ((l ++ [newline]) ++ rest)%list
    by (rewrite <- app_assoc; reflexivity).
  replace (S (length l)) with (length (l ++ [newline])%list)
    by (rewrite length_app; simpl; lia).
  rewrite drop_app_length. reflexivity.
Qed.

(** [Scan] on a last line without terminator that fits the buffer. *)
Lemma Scan_last (l : list Byte.byte) :
  IndexByte l newline = None -> l <> [] -> (length l < MaxScanTokenSize)%nat ->
  Scan l = Some (dropCR l, []).
Proof.
  intros Hl Hne Hlen. unfold Scan.
  rewrite (IndexByte_firstn_none _ _ _ Hl).
  destruct (length l <? MaxScanTokenSize)%nat eqn:E;
    [|apply Nat.ltb_ge in E; lia].
  destruct l; [congruence|reflexivity].
Qed.

Lemma Scan_nil : Scan [] = None.
Proof.
  unfold Scan. rewrite firstn_nil. simpl.
  destruct (0 <? MaxScanTokenSize)%nat; reflexivity.
Qed.

(** With enough rounds, and when every line fits the buffer, the loop of
    [streamWithHandler] stores the lines in order, and calls the handler
    once per line, in order. *)
Lemma streamLoop_lines (handler isError : bool) (fuel : nat) :
  forall pending buf calls,
    (length pending < fuel)%nat ->
    Forall (fun l => (length l < MaxScanTokenSize)%nat) (split_lines pending) ->
    streamLoop fuel pending handler isError buf calls =
    ((buf ++ flat_map stored_line (split_lines pending))%list,
     if handler
     then (calls ++ map (fun l => (string_of_list_byte (dropCR l), isError))
                        (split_lines pending))%list
     else calls).
Proof.
  induction fuel as [|fuel IH]; intros pending buf calls Hf Hshort; [lia|].
  cbn [streamLoop]. pose proof (split_lines_first pending) as Hfirst.
  destruct (split_lines pending) as [|l ls] eqn:Hsplit.
  - subst pending. rewrite Scan_nil. simpl. rewrite !app_nil_r.
    destruct handler; reflexivity.
  - destruct Hfirst as [Hl Hfirst]. inversion Hshort as [|? ? Hlen Hrest]; subst.
    destruct Hfirst as [(rest & -> & Hr)|(-> & -> & Hne)].
    + rewrite (Scan_line l rest Hl Hlen), stored_token.
      rewrite IH; [|rewrite length_app in Hf; simpl in Hf; lia|rewrite Hr; exact Hrest].
      rewrite Hr. cbn [flat_map map]. unfold stored_line at 2.
      rewrite <- !app_assoc. destruct handler; [|reflexivity].
      rewrite <- app_assoc. reflexivity.
    + rewrite (Scan_last l Hl Hne Hlen), stored_token.
      assert (0 < length l)%nat by (destruct l; [congruence|simpl; lia]).
      rewrite IH; [|simpl; lia|constructor].
      cbn [split_lines flat_map map]. unfold stored_line.
      destruct handler; rewrite ?app_nil_r, <- ?app_assoc; reflexivity.
Qed.

(** C4, as the code has it.  [captureOutput] returns exactly the bytes the
    stream delivered before it ended, by [io.EOF] or by an error, line
    terminators and a last line without terminator included, whatever the
    stream flag.  [streamWithHandler], when every line is shorter than the
    scanner buffer of 65536 bytes, returns the lines in order, each without
    a trailing carriage return and followed by one line feed, and calls the
    handler once per line in the same order. *)
Theorem capture_streams (r : Stream) (verbose : bool) (pre : string)
    (handler isError : bool) :
  fst (captureOutput r verbose pre) = delivered r /\
  fst (captureOutput r verbose pre) = fst (captureOutput r (negb verbose) pre) /\
  (Forall (fun l => (length l < MaxScanTokenSize)%nat) (split_lines (delivered r)) ->
   fst (streamWithHandler r handler isError) =
     flat_map stored_line (split_lines (delivered r)) /\
   snd (streamWithHandler r true isError) =
     map (fun l => (string_of_list_byte (dropCR l), isError))
         (split_lines (delivered r)) /\
   snd (streamWithHandler r false isError) = []) /\
  captureOutput crlf_stream true "stdout" =
    ([Byte.x61; carriage_return; newline; Byte.x62],
     ["[stdout] " +:+ string_of_list_byte [Byte.x61; carriage_return; newline];
      "[stdout] b"]) /\
  streamWithHandler crlf_stream true true =
    ([Byte.x61; newline; Byte.x62; newline], [("a", true); ("b", true)]).
Proof.
  assert (Hc : forall v, fst (captureOutput r v pre) = delivered r).
  { intros v. unfold captureOutput. rewrite captureLoop_all by lia. reflexivity. }
  split; [apply Hc|]. split; [rewrite !Hc; reflexivity|].
  split.
  { intros Hshort. unfold streamWithHandler.
    rewrite !streamLoop_lines by (try lia; exact Hshort).
    split; [destruct handler; reflexivity|]. split; reflexivity. }
  split; vm_compute; reflexivity.
Qed.

(** C4 fails as stated for the streaming mode: a line in CR LF and a last
    line without terminator do not come back byte for byte; and after a
    line of 65536 bytes the scanner stops, so that neither this line nor
    the line that follows it is returned or handed to the handler. *)
Lemma streaming_loses_bytes :
  fst (streamWithHandler crlf_stream true false) <> delivered crlf_stream /\
  delivered long_line_stream =
    (repeat Byte.x61 MaxScanTokenSize ++ [newline; Byte.x62; newline])%list /\
  streamWithHandler long_line_stream true false = ([], []).
Proof.
  split; [vm_compute; discriminate|].
  split; [reflexivity|]. vm_compute. reflexivity.
Qed.

Local Transparent MaxScanTokenSize.

(** ** Fingerprints *)

Lemma length_hex_EncodeToString (bs : list Byte.byte) :
  String.length (hex_EncodeToString bs) = (2 * length bs)%nat.
Proof. induction bs as [|b bs IH]; simpl; [reflexivity|]. rewrite IH. lia. Qed.

Lemma hex_EncodeToString_digits (bs : list Byte.byte) :
  all_bytes is_hex_digit (hex_EncodeToString bs) = true.
Proof.
  induction bs as [|b bs IH]; [reflexivity|].
  cbn [hex_EncodeToString all_bytes]. rewrite IH, !andb_true_r.
  destruct b; vm_compute; reflexivity.
Qed.

(** The digest always has 32 bytes. *)
Lemma length_Sum256 (data : list Byte.byte) : length (Sum256 data) = 32%nat.
Proof. unfold Sum256. rewrite length_map. reflexivity. Qed.

Lemma length_hashString (s : string) : String.length (hashString s) = 64%nat.
Proof.
  unfold hashString. rewrite length_hex_EncodeToString, length_Sum256.
  reflexivity.
Qed.

Lemma length_substring_0 (n : nat) (s : string) :
  (n <= String.length s)%nat -> String.length (substring 0 n s) = n.
Proof.
  revert s. induction n as [|n IH]; intros s H.
  - destruct s; reflexivity.
  - destruct s as [|c s]; simpl in *; [lia|]. rewrite IH; [reflexivity|lia].
Qed.

(** The model of SHA-256 on the standard test vectors: the empty message,
    one block, the padding boundary at 55, 56 and 64 bytes, two blocks. *)
Lemma hashString_vectors :
  hashString "" =
    "e3b0c44298fc1c149afbf4c8996fb92427ae41e4649b934ca495991b7852b855" /\
  hashString "abc" =
    "ba7816bf8f01cfea414140de5dae2223b00361a396177a9cb410ff61f20015ad" /\
  hashString "abcdbcdecdefdefgefghfghighijhijkijkljklmklmnlmnomnopnopq" =
    "248d6a61d20638b8e5c026930c3e6039a33ce45964ff2167f6ecedd419db06c1" /\
  hashString (string_of_list_ascii (repeat "a"%char 55)) =
    "9f4390f8d30c2dd92ec9f095b65e2b9ae9b0a925a5258e241c9f1e910f734318" /\
  hashString (string_of_list_ascii (repeat "a"%char 56)) =
    "b35439a4ac6f0948b6d6f9e3c6af0f5f590ce20f1bde7090ef7970686ec6738a" /\
  hashString (string_of_list_ascii (repeat "a"%char 64)) =
    "ffe054fe7ae0cb6dc65c3af9b61d5209f439851db43d0ba5997337df154668eb".
Proof. repeat split; vm_compute; reflexivity. Qed.

(** C5.  Each fingerprint function is the hex SHA-256 digest of its fields
    joined with a colon: file, rule and decimal start line for a
    static-analysis finding; package name, version and vulnerability
    identifier for a dependency; file, rule, decimal start line and the
    first eight hex digits of the digest of the secret for a secret.  The
    result has 64 hex digits, and equal inputs give equal fingerprints. *)
Theorem fingerprints_canonical (file ruleID : string) (startLine : Z)
    (pkgName pkgVersion vulnID secretValue : string) :
  let secretDigestPrefix := substring 0 8 (spec_fingerprint [secretValue]) in
  GenerateSastFingerprint file ruleID startLine =
    spec_fingerprint [file; ruleID; fmt_d startLine] /\
  GenerateScaFingerprint pkgName pkgVersion vulnID =
    spec_fingerprint [pkgName; pkgVersion; vulnID] /\
  GenerateSecretFingerprint file ruleID startLine secretValue =
    spec_fingerprint [file; ruleID; fmt_d startLine; secretDigestPrefix] /\
  String.length secretDigestPrefix = 8%nat /\
  (forall fields,
     String.length (spec_fingerprint fields) = 64%nat /\
     all_bytes is_hex_digit (spec_fingerprint fields) = true) /\
  (forall file' ruleID' startLine' secretValue',
     file' = file -> ruleID' = ruleID -> startLine' = startLine ->
     secretValue' = secretValue ->
     GenerateSastFingerprint file' ruleID' startLine' =
       GenerateSastFingerprint file ruleID startLine /\
     GenerateSecretFingerprint file' ruleID' startLine' secretValue' =
       GenerateSecretFingerprint file ruleID startLine secretValue) /\
  hashString "abc" =
    "ba7816bf8f01cfea414140de5dae2223b00361a396177a9cb410ff61f20015ad" /\
  GenerateSastFingerprint "src/main.go" "G101" 42 =
    "e8b5213d23e8a0fb1f16e90bdb633e6844c5ab5213340753da525ef451dbaa77" /\
  GenerateSastFingerprint "f" "r" (-7) =
    "412298c4b91ef3c04048fa2e8cd5d5faa3a0d521cd414bfb109e7c14b392c938" /\
  GenerateScaFingerprint "lodash" "4.17.20" "CVE-2021-23337" =
    "7e7e80407091e50ca44876468c6b613d545d7591002c6005642c86487bb843a9" /\
  GenerateSecretFingerprint "src/main.go" "G101" 42 "hunter2" =
    "f77d8ac5aabe191fdb025c82e14fabc09e2517ce3e94621d40b9e80da608e924".
Proof.
  intros secretDigestPrefix.
  split; [reflexivity|]. split; [reflexivity|]. split; [reflexivity|].
  split.
  { apply length_substring_0. change (spec_fingerprint [secretValue])
      with (hashString secretValue). rewrite length_hashString. lia. }
  split.
  { intros fields. split.
    - apply (length_hashString (join_colon fields)).
    - apply hex_EncodeToString_digits. }
  split.
  { intros ? ? ? ? -> -> -> ->. split; reflexivity. }
  repeat split; vm_compute; reflexivity.
Qed.

(** C10.  The fields are joined with a colon that is not escaped inside
    them, so moving a colon across a field boundary keeps the hashed string,
    and with it the fingerprint: the tuples (a:b, c, 1) and (a, b:c, 1) are
    distinct and have the same static-analysis fingerprint, and likewise
    (a:b, c, v) and (a, b:c, v) for the dependency fingerprint. *)
Theorem fingerprint_delimiter_collision :
  ("a:b", "c", 1) <> ("a", "b:c", 1) /\
  GenerateSastFingerprint "a:b" "c" 1 = GenerateSastFingerprint "a" "b:c" 1 /\
  ("a:b", "c", "v") <> ("a", "b:c", "v") /\
  GenerateScaFingerprint "a:b" "c" "v" = GenerateScaFingerprint "a" "b:c" "v" /\
  (forall x y z n,
     GenerateSastFingerprint (x +:+ ":" +:+ y) z n =
     GenerateSastFingerprint x (y +:+ ":" +:+ z) n) /\
  (forall x y z v,
     GenerateScaFingerprint (x +:+ ":" +:+ y) z v =
     GenerateScaFingerprint x (y +:+ ":" +:+ z) v).
Proof.
  assert (Hassoc : forall a b c : string, (a +:+ b) +:+ c = a +:+ (b +:+ c)).
  { intros a b c. induction a as [|ch a IH]; [reflexivity|].
    rewrite !append_cons, IH. reflexivity. }
  split; [discriminate|]. split; [reflexivity|].
  split; [discriminate|]. split; [reflexivity|].
  split; intros; unfold GenerateSastFingerprint, GenerateScaFingerprint;
    f_equal; rewrite !Hassoc; reflexivity.
Qed.

(** ** CVSS selection *)

Lemma selectFrom_unusable (prio : list string) (m : gmap string CVSSData) :
  selectFrom prio m = None <-> forall src, In src prio -> usable m src = false.
Proof.
  unfold usable. induction prio as [|p prio IH]; simpl.
  - split; [intros _ src []|reflexivity].
  - destruct (m !! p) as [d|] eqn:Ep.
    + destruct (0 <? Score d)%float eqn:Es.
      * split; [discriminate|]. intros H. specialize (H p (or_introl eq_refl)).
        rewrite Ep in H. congruence.
      * rewrite IH. split.
        -- intros H src [<-|Hin]; [rewrite Ep; exact Es|auto].
        -- intros H src Hin. apply H. right. exact Hin.
    + rewrite IH. split.
      * intros H src [<-|Hin]; [rewrite Ep; reflexivity|auto].
      * intros H src Hin. apply H. right. exact Hin.
Qed.

Lemma selectFrom_first (prio : list string) (m : gmap string CVSSData)
    (d : CVSSData) :
  selectFrom prio m = Some d <->
  exists before src after,
    prio = (before ++ src :: after)%list /\
    m !! src = Some d /\ (0 <? Score d)%float = true /\
    forall src', In src' before -> usable m src' = false.
Proof.
  induction prio as [|p prio IH]; simpl.
  - split; [discriminate|]. intros (before & src & after & E & _).
    destruct before; discriminate.
  - split.
    + destruct (m !! p) as [dp|] eqn:Ep.
      * destruct (0 <? Score dp)%float eqn:Es.
        -- intros [= <-]. exists [], p, prio. repeat split; auto.
           intros src' [].
        -- intros H. apply IH in H as (before & src & after & -> & Hm & Hs & Hb).
           exists (p :: before), src, after. repeat split; auto.
           intros src' [<-|Hin]; [|auto]. unfold usable. rewrite Ep. exact Es.
      * intros H. apply IH in H as (before & src & after & -> & Hm & Hs & Hb).
        exists (p :: before), src, after. repeat split; auto.
        intros src' [<-|Hin]; [|auto]. unfold usable. rewrite Ep. reflexivity.
    + intros (before & src & after & E & Hm & Hs & Hb).
      destruct before as [|b before]; simpl in E; injection E as -> ->.
      * rewrite Hm, Hs. reflexivity.
      * pose proof (Hb b (or_introl eq_refl)) as Hu. unfold usable in Hu.
        assert (selectFrom (before ++ src :: after)%list m = Some d) as Hrec.
        { apply IH. exists before, src, after. repeat split; auto.
          intros src' Hin. apply Hb. right. exact Hin. }
        destruct (m !! b) as [db|]; [rewrite Hu|]; exact Hrec.
Qed.

(** C3.  [SelectBestCVSS] returns the record of the first source, in the
    order NVD, GHSA, RedHat, Bitnami, that is present with a strictly
    positive score, skipping absent sources and non-positive scores; it
    returns no record exactly when no source of the order is usable, so in
    particular on the empty mapping and when every present score is
    non-positive; on {ghsa: 5.0, redhat: 9.0} it returns the GHSA record. *)
Theorem SelectBestCVSS_priority (m : gmap string CVSSData) :
  CVSSPriority = ["nvd"; "ghsa"; "redhat"; "bitnami"] /\
  (forall d, SelectBestCVSS m = Some d <->
     exists before src after,
       CVSSPriority = (before ++ src :: after)%list /\
       m !! src = Some d /\ (0 <? Score d)%float = true /\
       forall src', In src' before -> usable m src' = false) /\
  (SelectBestCVSS m = None <->
     forall src, In src CVSSPriority -> usable m src = false) /\
  (m = ∅ -> SelectBestCVSS m = None) /\
  ((forall src d, m !! src = Some d -> (0 <? Score d)%float = false) ->
     SelectBestCVSS m = None) /\
  SelectBestCVSS ghsa_redhat = Some ghsa_record /\
  Score ghsa_record = 5.0%float.
Proof.
  unfold SelectBestCVSS.
  split; [reflexivity|].
  split; [intros d; apply selectFrom_first|].
  split; [apply selectFrom_unusable|].
  split.
  { intros ->. apply selectFrom_unusable. intros src _. unfold usable.
    rewrite lookup_empty. reflexivity. }
  split.
  { intros H. apply selectFrom_unusable. intros src _. unfold usable.
    destruct (m !! src) as [d|] eqn:E; [eauto|reflexivity]. }
  split; [vm_compute; reflexivity|reflexivity].
Qed.

(** ** Comparison of binary64 values *)

Lemma SFcompare_antisym (a b : spec_float) :
  SFcompare b a = option_map CompOpp (SFcompare a b).
Proof.
  destruct a as [sa|sa| |sa ma ea], b as [sb|sb| |sb mb eb]; simpl;
    try reflexivity; try (destruct sa; reflexivity);
    try (destruct sb; reflexivity); try (destruct sa, sb; reflexivity).
  pose proof (Pos.compare_cont_antisym ma mb Eq) as Hm. simpl in Hm.
  destruct sa, sb; simpl; try reflexivity; f_equal;
    rewrite (Z.compare_antisym ea eb);
    destruct (ea ?= eb)%Z; simpl; try reflexivity;
    rewrite <- Hm; try rewrite CompOpp_involutive; reflexivity.
Qed.

(** [x < y] and [y <= x] exclude each other. *)
Lemma float_ltb_not_leb (x y : float) :
  (x <? y)%float = true -> (y <=? x)%float = false.
Proof.
  rewrite ltb_spec, leb_spec. unfold SFltb, SFleb.
  rewrite (SFcompare_antisym (Prim2SF x) (Prim2SF y)).
  destruct (SFcompare (Prim2SF x) (Prim2SF y)) as [[]|]; simpl; congruence.
Qed.

(** [SFcompare] only fails on a NaN. *)
Lemma SFcompare_None (a b : spec_float) :
  SFcompare a b = None -> a = S754_nan \/ b = S754_nan.
Proof.
  destruct a, b; simpl; try discriminate; auto.
Qed.

(** Between two values that are not NaN ([x] is above some [z], [y] equals
    itself), [y <= x] fails exactly when [x < y]. *)
Lemma float_not_leb_ltb (x y z : float) :
  (z <=? x)%float = true -> (y <=? y)%float = true ->
  (y <=? x)%float = false -> (x <? y)%float = true.
Proof.
  rewrite !leb_spec, ltb_spec. unfold SFltb, SFleb.
  intros Hx Hy.
  assert (Prim2SF x <> S754_nan) as Nx.
  { intros E; rewrite E in Hx. destruct (Prim2SF z); discriminate. }
  assert (Prim2SF y <> S754_nan) as Ny.
  { intros E; rewrite E in Hy. discriminate. }
  rewrite (SFcompare_antisym (Prim2SF x) (Prim2SF y)).
  destruct (SFcompare (Prim2SF x) (Prim2SF y)) as [[]|] eqn:E; simpl;
    try congruence.
  destruct (SFcompare_None _ _ E); contradiction.
Qed.

Lemma float_ltb_leb_weak (x y : float) :
  (x <? y)%float = true -> (x <=? y)%float = true.
Proof.
  rewrite ltb_spec, leb_spec. unfold SFltb, SFleb.
  destruct (SFcompare (Prim2SF x) (Prim2SF y)) as [[]|]; simpl; congruence.
Qed.

Ltac sf_cases :=
  repeat match goal with
  | |- context [PosDef.Pos.compare_cont Eq ?a ?b] =>
      change (PosDef.Pos.compare_cont Eq a b) with (Pos.compare a b)
  | H : context [PosDef.Pos.compare_cont Eq ?a ?b] |- _ =>
      change (PosDef.Pos.compare_cont Eq a b) with (Pos.compare a b) in H
  end;
  repeat match goal with
  | H : context [(?a ?= ?b)%Z] |- _ => destruct (Z.compare_spec a b); simpl in H
  | H : context [(?a ?= ?b)%positive] |- _ =>
      destruct (Pos.compare_spec a b); simpl in H
  | |- context [(?a ?= ?b)%Z] => destruct (Z.compare_spec a b); simpl
  | |- context [(?a ?= ?b)%positive] => destruct (Pos.compare_spec a b); simpl
  end; subst; try congruence; try lia.

Lemma SFleb_ltb_trans (a b c : spec_float) :
  SFleb a b = true -> SFltb b c = true -> SFltb a c = true.
Proof.
  unfold SFleb, SFltb.
  destruct a as [sa|sa| |sa ma ea], b as [sb|sb| |sb mb eb],
    c as [sc|sc| |sc mc ec]; simpl; try congruence;
    try destruct sa; try destruct sb; try destruct sc; simpl; try congruence;
    intros H1 H2; sf_cases.
Qed.

Lemma SFltb_leb_trans (a b c : spec_float) :
  SFltb a b = true -> SFleb b c = true -> SFltb a c = true.
Proof.
  unfold SFleb, SFltb.
  destruct a as [sa|sa| |sa ma ea], b as [sb|sb| |sb mb eb],
    c as [sc|sc| |sc mc ec]; simpl; try congruence;
    try destruct sa; try destruct sb; try destruct sc; simpl; try congruence;
    intros H1 H2; sf_cases.
Qed.

Lemma float_leb_ltb_trans (x y z : float) :
  (x <=? y)%float = true -> (y <? z)%float = true -> (x <? z)%float = true.
Proof. rewrite leb_spec, !ltb_spec. apply SFleb_ltb_trans. Qed.

Lemma float_ltb_leb_trans (x y z : float) :
  (x <? y)%float = true -> (y <=? z)%float = true -> (x <? z)%float = true.
Proof. rewrite leb_spec, !ltb_spec. apply SFltb_leb_trans. Qed.

(** A score below a band limit [hi] is not above a higher limit [lim]. *)
Lemma float_below_not_above (lim hi s : float) :
  (lim <? hi)%float = false -> (s <? hi)%float = true ->
  (lim <=? s)%float = false.
Proof.
  intros Hc Hs. destruct (lim <=? s)%float eqn:E; [|reflexivity].
  rewrite (float_leb_ltb_trans _ _ _ E Hs) in Hc. discriminate.
Qed.

(** A score above a band limit [lo] that lies above zero is positive. *)
Lemma float_above_positive (lo s : float) :
  (0 <? lo)%float = true -> (lo <=? s)%float = true -> (0 <? s)%float = true.
Proof. apply float_ltb_leb_trans. Qed.

(** Closes a band goal from the comparisons in the context. *)
Ltac band_contra :=
  match goal with
  | H : (?s <? ?c)%float = true, E : (?l <=? ?s)%float = true |- _ =>
      let K := fresh in
      pose proof (float_below_not_above l c s eq_refl H) as K; congruence
  | H : (?s <=? ?z)%float = true, P : (?z <? ?s)%float = true |- _ =>
      let K := fresh in
      pose proof (float_ltb_not_leb _ _ P) as K; congruence
  end.

Ltac band_finish :=
  repeat split; simpl; auto 10; try discriminate; try congruence; intros;
  repeat match goal with H : _ /\ _ |- _ => destruct H end;
  try congruence; try band_contra.

(** ** Score to severity *)

(** C7.  [SeverityFromCVSS] sends every score to exactly one of the five
    levels, by lower-inclusive bands: critical from 9.0, high on [7.0, 9.0),
    medium on [4.0, 7.0), low on (0, 4.0), and info for everything else
    (zero, negative scores, and a NaN, which is in no band); the boundary
    values of the specification are checked on the binary64 constants. *)
Theorem SeverityFromCVSS_bands (s : float) :
  In (SeverityFromCVSS s) severity_levels /\
  (SeverityFromCVSS s = "critical" <-> (9.0 <=? s)%float = true) /\
  (SeverityFromCVSS s = "high" <->
     (7.0 <=? s)%float = true /\ (s <? 9.0)%float = true) /\
  (SeverityFromCVSS s = "medium" <->
     (4.0 <=? s)%float = true /\ (s <? 7.0)%float = true) /\
  (SeverityFromCVSS s = "low" <->
     (0 <? s)%float = true /\ (s <? 4.0)%float = true) /\
  (SeverityFromCVSS s = "info" <-> (0 <? s)%float = false) /\
  ((s <=? 0)%float = true -> SeverityFromCVSS s = "info") /\
  SeverityFromCVSS 9.0 = "critical" /\ SeverityFromCVSS 8.999 = "high" /\
  SeverityFromCVSS 7.0 = "high" /\ SeverityFromCVSS 6.999 = "medium" /\
  SeverityFromCVSS 4.0 = "medium" /\ SeverityFromCVSS 3.999 = "low" /\
  SeverityFromCVSS 0.001 = "low" /\ SeverityFromCVSS 0 = "info" /\
  SeverityFromCVSS (-1) = "info".
Proof.
  unfold SeverityFromCVSS, severity_levels.
  destruct (9.0 <=? s)%float eqn:E9.
  { pose proof (float_above_positive 9.0 s eq_refl E9) as P. band_finish. }
  destruct (7.0 <=? s)%float eqn:E7.
  { pose proof (float_above_positive 7.0 s eq_refl E7) as P.
    pose proof (float_not_leb_ltb s 9.0 7.0 E7 eq_refl E9) as L. band_finish. }
  destruct (4.0 <=? s)%float eqn:E4.
  { pose proof (float_above_positive 4.0 s eq_refl E4) as P.
    pose proof (float_not_leb_ltb s 7.0 4.0 E4 eq_refl E7) as L. band_finish. }
  destruct (0 <? s)%float eqn:E0.
  { pose proof (float_not_leb_ltb s 4.0 0 (float_ltb_leb_weak _ _ E0) eq_refl E4)
      as L. band_finish. }
  band_finish.
Qed.

(** ** Label to severity *)

Lemma rev_str_app (a b : string) : rev_str (a +:+ b) = rev_str b +:+ rev_str a.
Proof.
  unfold rev_str.
  rewrite list_ascii_of_string_app, rev_app_distr, string_of_list_ascii_app.
  reflexivity.
Qed.

Lemma rev_str_involutive (s : string) : rev_str (rev_str s) = s.
Proof.
  unfold rev_str.
  rewrite list_ascii_of_string_of_list_ascii, rev_involutive.
  apply string_of_list_ascii_of_string.
Qed.

Lemma rev_str_cons (c : ascii) (s : string) :
  rev_str (String c s) = rev_str s +:+ String c "".
Proof. apply (rev_str_app (String c "") s). Qed.

Lemma all_bytes_app (P : ascii -> bool) (a b : string) :
  all_bytes P (a +:+ b) = all_bytes P a && all_bytes P b.
Proof.
  induction a as [|c a IH]; [reflexivity|].
  rewrite append_cons. simpl. rewrite IH, andb_assoc. reflexivity.
Qed.

Lemma all_bytes_rev (P : ascii -> bool) (s : string) :
  all_bytes P (rev_str s) = all_bytes P s.
Proof.
  induction s as [|c s IH]; [reflexivity|].
  rewrite rev_str_cons, all_bytes_app, IH. simpl.
  rewrite andb_true_r. apply andb_comm.
Qed.

Lemma prefix_nil (s : string) : String.prefix "" s = true.
Proof. destruct s; reflexivity. Qed.

(** The ASCII white space bytes are the bytes 9 to 13 and 32. *)
Lemma ascii_space_cases (c : ascii) :
  ascii_space c = true ->
  c = chr 9 \/ c = chr 10 \/ c = chr 11 \/ c = chr 12 \/ c = chr 13 \/ c = chr 32.
Proof.
  destruct c as [[] [] [] [] [] [] [] []]; vm_compute; intros H;
    try discriminate H; tauto.
Qed.

(** One ASCII white space byte in front is stripped as one rune, from the
    front as from the back. *)
Lemma strip_rune_ascii_space (c : ascii) (rest : string) :
  ascii_space c = true ->
  strip_rune space_runes (String c rest) = Some rest /\
  strip_rune (map rev_str space_runes) (String c rest) = Some rest.
Proof.
  intros H. apply ascii_space_cases in H.
  destruct H as [-> | [-> | [-> | [-> | [-> | ->]]]]];
    split; unfold strip_rune; cbn; rewrite prefix_nil; reflexivity.
Qed.

(** No space rune starts or ends with an ASCII letter. *)
Lemma strip_rune_letter (runes : list string) (c : ascii) (rest : string) :
  forallb (fun r => match r with
                    | String r0 _ => negb (is_letter r0)
                    | EmptyString => false
                    end) runes = true ->
  is_letter c = true ->
  strip_rune runes (String c rest) = None.
Proof.
  intros Hr Hc. unfold strip_rune.
  assert (find (fun r => String.prefix r (String c rest)) runes = None) as ->;
    [|reflexivity].
  induction runes as [|r runes IH]; [reflexivity|].
  simpl in Hr. apply andb_true_iff in Hr as [Hr0 Hr].
  cbn [find]. destruct r as [|r0 r]; [discriminate|].
  cbn [String.prefix]. destruct (ascii_dec r0 c) as [->|_].
  - rewrite Hc in Hr0. discriminate.
  - apply IH, Hr.
Qed.

Lemma trim_left_fuel_pad (runes : list string) (pre s : string) (fuel : nat) :
  (forall c rest, ascii_space c = true ->
     strip_rune runes (String c rest) = Some rest) ->
  all_bytes ascii_space pre = true ->
  (String.length pre <= fuel)%nat ->
  strip_rune runes s = None ->
  trim_left_fuel fuel runes (pre +:+ s) = s.
Proof.
  intros Hstrip. revert fuel. induction pre as [|c pre IH]; intros fuel Hp Hf Hs.
  - rewrite append_nil_l. destruct fuel; simpl; [|rewrite Hs]; reflexivity.
  - simpl in Hp. apply andb_true_iff in Hp as [Hc Hp].
    destruct fuel as [|fuel]; [simpl in Hf; lia|].
    rewrite append_cons. cbn [trim_left_fuel]. rewrite (Hstrip _ _ Hc).
    apply IH; [exact Hp|simpl in Hf; lia|exact Hs].
Qed.

Lemma space_runes_no_letter :
  forallb (fun r => match r with
                    | String r0 _ => negb (is_letter r0)
                    | EmptyString => false
                    end) space_runes = true /\
  forallb (fun r => match r with
                    | String r0 _ => negb (is_letter r0)
                    | EmptyString => false
                    end) (map rev_str space_runes) = true.
Proof. split; vm_compute; reflexivity. Qed.

Lemma length_rev_str (s : string) : String.length (rev_str s) = String.length s.
Proof.
  induction s as [|c s IH]; [reflexivity|].
  rewrite rev_str_cons, length_append, IH. simpl. lia.
Qed.

(** A non-empty word of ASCII letters, padded on both sides with ASCII
    white space, is trimmed back to the word. *)
Lemma TrimSpace_padded (pre post w : string) :
  all_bytes ascii_space pre = true -> all_bytes ascii_space post = true ->
  all_bytes is_letter w = true -> w <> "" ->
  TrimSpace (pre +:+ w +:+ post) = w.
Proof.
  intros Hpre Hpost Hw Hne. unfold TrimSpace.
  destruct space_runes_no_letter as [Hl Hr].
  assert (TrimLeftSpace (pre +:+ w +:+ post) = w +:+ post) as ->.
  { unfold TrimLeftSpace. apply trim_left_fuel_pad.
    - intros c rest Hc. exact (proj1 (strip_rune_ascii_space c rest Hc)).
    - exact Hpre.
    - rewrite length_append. lia.
    - destruct w as [|a w]; [congruence|]. simpl in Hw.
      apply andb_true_iff in Hw as [Ha _].
      rewrite append_cons. apply strip_rune_letter; assumption. }
  unfold TrimRightSpace.
  rewrite rev_str_app.
  transitivity (rev_str (rev_str w)); [|apply rev_str_involutive].
  f_equal. apply trim_left_fuel_pad.
  - intros c rest Hc. exact (proj2 (strip_rune_ascii_space c rest Hc)).
  - rewrite all_bytes_rev. exact Hpost.
  - rewrite length_append, length_rev_str. lia.
  - pose proof (all_bytes_rev is_letter w) as Hrev. rewrite Hw in Hrev.
    pose proof (length_rev_str w) as Hlen.
    destruct (rev_str w) as [|z r].
    + destruct w; [congruence|discriminate Hlen].
    + simpl in Hrev. apply andb_true_iff in Hrev as [Hz _].
      apply strip_rune_letter; assumption.
Qed.

(** A byte that spells an upper-case letter, in either case, is a letter
    whose upper case is that letter. *)
Lemma upper_variant (c l : ascii) :
  is_upper l = true ->
  (Ascii.eqb c l || Ascii.eqb c (lower_byte l)) = true ->
  upper_byte c = l /\ is_letter c = true /\
  (N_of_ascii c =? 196)%N = false /\ (N_of_ascii c =? 197)%N = false.
Proof.
  intros Hl H. apply orb_true_iff in H as [H|H]; apply Ascii.eqb_eq in H;
    subst c; destruct l as [[] [] [] [] [] [] [] []]; try discriminate Hl;
    vm_compute; auto.
Qed.

(** Upper-casing a case variant of an upper-case word gives the word. *)
Lemma ToUpper_case_variant (w label : string) :
  all_bytes is_upper label = true -> case_variant w label = true ->
  ToUpper w = label /\ all_bytes is_letter w = true.
Proof.
  revert label. induction w as [|c w IH]; intros [|l label] Hl Hv;
    try discriminate Hv; [split; reflexivity|].
  simpl in Hl, Hv. apply andb_true_iff in Hl as [Hl0 Hl].
  apply andb_true_iff in Hv as [Hv0 Hv].
  destruct (upper_variant c l Hl0 Hv0) as (Hu & Hc & H196 & H197).
  destruct (IH label Hl Hv) as [IHu IHl].
  split; [|simpl; rewrite Hc, IHl; reflexivity].
  cbn [ToUpper]. destruct w as [|d w].
  - destruct label; [|discriminate Hv]. rewrite Hu. reflexivity.
  - rewrite H196, H197. cbn [andb]. rewrite Hu, IHu. reflexivity.
Qed.

(** C8.  [NormalizeSeverity] is total: every string is sent to one of the
    five levels, decided by the upper-cased, trimmed input alone: CRITICAL
    gives critical; HIGH and ERROR give high; MEDIUM, MODERATE and WARNING
    give medium; LOW gives low; everything else, the empty string included,
    gives info.  A label written in any letter case and padded with ASCII
    white space is recognised. *)
Theorem NormalizeSeverity_total (severity : string) :
  let u := ToUpper (TrimSpace severity) in
  In (NormalizeSeverity severity) severity_levels /\
  (NormalizeSeverity severity = "critical" <-> u = "CRITICAL") /\
  (NormalizeSeverity severity = "high" <-> u = "HIGH" \/ u = "ERROR") /\
  (NormalizeSeverity severity = "medium" <->
     u = "MEDIUM" \/ u = "MODERATE" \/ u = "WARNING") /\
  (NormalizeSeverity severity = "low" <-> u = "LOW") /\
  (NormalizeSeverity severity = "info" <->
     ~ In u ["CRITICAL"; "HIGH"; "ERROR"; "MEDIUM"; "MODERATE"; "WARNING"; "LOW"]) /\
  (forall label level pre post w,
     In (label, level) severity_labels ->
     all_bytes ascii_space pre = true -> all_bytes ascii_space post = true ->
     case_variant w label = true ->
     NormalizeSeverity (pre +:+ w +:+ post) = level) /\
  NormalizeSeverity "Warning" = "medium" /\
  NormalizeSeverity "" = "info" /\
  NormalizeSeverity "CRITICAL" = "critical" /\
  NormalizeSeverity "no such level" = "info".
Proof.
  intros u.
  assert (Hcases :
    (u = "CRITICAL" /\ NormalizeSeverity severity = "critical") \/
    (u = "HIGH" /\ NormalizeSeverity severity = "high") \/
    (u = "ERROR" /\ NormalizeSeverity severity = "high") \/
    (u = "MEDIUM" /\ NormalizeSeverity severity = "medium") \/
    (u = "MODERATE" /\ NormalizeSeverity severity = "medium") \/
    (u = "WARNING" /\ NormalizeSeverity severity = "medium") \/
    (u = "LOW" /\ NormalizeSeverity severity = "low") \/
    (~ In u ["CRITICAL"; "HIGH"; "ERROR"; "MEDIUM"; "MODERATE"; "WARNING"; "LOW"]
     /\ NormalizeSeverity severity = "info")).
  { unfold NormalizeSeverity. fold u.
    destruct (String.eqb_spec u "CRITICAL") as [E1|N1]; [rewrite E1; tauto|].
    destruct (String.eqb_spec u "HIGH") as [E2|N2]; [rewrite E2; tauto|].
    destruct (String.eqb_spec u "ERROR") as [E3|N3]; [rewrite E3; tauto|].
    destruct (String.eqb_spec u "MEDIUM") as [E4|N4]; [rewrite E4; tauto|].
    destruct (String.eqb_spec u "MODERATE") as [E5|N5]; [rewrite E5; tauto|].
    destruct (String.eqb_spec u "WARNING") as [E6|N6]; [rewrite E6; tauto|].
    destruct (String.eqb_spec u "LOW") as [E7|N7]; [rewrite E7; tauto|].
    repeat right. split.
    - simpl. intuition congruence.
    - cbn [orb]. destruct (_ || _); reflexivity. }
  split.
  { unfold severity_levels.
    destruct Hcases as [[_ ->]|[[_ ->]|[[_ ->]|[[_ ->]|[[_ ->]|[[_ ->]|[[_ ->]|[_ ->]]]]]]]];
      simpl; tauto. }
  split; [|split; [|split; [|split; [|split]]]].
  1-5: destruct Hcases as [[E ->]|[[E ->]|[[E ->]|[[E ->]|[[E ->]|[[E ->]|[[E ->]|[E ->]]]]]]]];
    try rewrite E; split; intros H; try discriminate H; try reflexivity;
    try (simpl in E; intuition congruence); try tauto;
    try (exfalso; apply H; simpl; tauto);
    try (simpl; intuition discriminate).
  split.
  { intros label level pre post w Hin Hpre Hpost Hv.
    assert (all_bytes is_upper label = true /\ label <> "") as [Hup Hne].
    { simpl in Hin.
      repeat destruct Hin as [[= <- <-]|Hin]; try (split; [reflexivity|discriminate]).
      destruct Hin. }
    destruct (ToUpper_case_variant w label Hup Hv) as [Hu Hl].
    assert (w <> "") as Hw.
    { intros ->. destruct label; [congruence|discriminate Hv]. }
    unfold NormalizeSeverity.
    rewrite (TrimSpace_padded pre post w Hpre Hpost Hl Hw), Hu.
    simpl in Hin.
    repeat destruct Hin as [[= <- <-]|Hin]; try reflexivity. destruct Hin. }
  repeat split; vm_compute; reflexivity.
Qed.

(** ** Package type detection *)

Lemma prefix_app (p s : string) :
  String.prefix p s = true <-> exists post, s = p +:+ post.
Proof.
  revert s. induction p as [|a p IH]; intros s; simpl.
  - destruct s; split; eauto.
  - destruct s as [|b s]; simpl.
    + split; [discriminate|]. intros [post E]. discriminate.
    + destruct (ascii_dec a b) as [->|Hab].
      * rewrite IH. split; intros [post E]; exists post;
          rewrite append_cons in *; congruence.
      * split; [discriminate|]. intros [post E]. rewrite append_cons in E.
        congruence.
Qed.

(** [Contains] is the substring test. *)
Lemma Contains_substring (s sub : string) :
  Contains s sub = true <-> exists pre post, s = pre +:+ sub +:+ post.
Proof.
  induction s as [|c s IH].
  - cbn [Contains]. rewrite orb_false_r, prefix_app. split.
    + intros [post E]. exists "", post. exact E.
    + intros (pre & post & E). destruct pre; [eauto|discriminate].
  - cbn [Contains]. rewrite orb_true_iff, IH, prefix_app. split.
    + intros [[post E]|(pre & post & E)].
      * exists "", post. exact E.
      * exists (String c pre), post. rewrite append_cons. congruence.
    + intros (pre & post & E). destruct pre as [|c' pre].
      * left. eauto.
      * right. exists pre, post. rewrite append_cons in E. congruence.
Qed.

Lemma detect_by_markers_empty (table : list (string * list string)) (lower : string) :
  (forall t ms, In (t, ms) table -> t <> "") ->
  detect_by_markers table lower = "" <->
  forall t ms mk, In (t, ms) table -> In mk ms -> Contains lower mk = false.
Proof.
  intros Hne. induction table as [|[t ms] rest IH]; simpl.
  - split; [intros _ ? ? ? []|reflexivity].
  - destruct (existsb (Contains lower) ms) eqn:E.
    + split.
      * intros ->. exfalso. apply (Hne "" ms); [left; reflexivity|reflexivity].
      * intros H. apply existsb_exists in E as (mk & Hin & Hc).
        rewrite (H t ms mk) in Hc; [discriminate|left; reflexivity|exact Hin].
    + rewrite IH by (intros t' ms' Hin; apply (Hne t' ms'); right; exact Hin).
      split.
      * intros H t' ms' mk [[= <- <-]|Hin] Hmk; [|exact (H t' ms' mk Hin Hmk)].
        destruct (Contains lower mk) eqn:Ec; [|reflexivity].
        assert (existsb (Contains lower) ms = true) as Hx
          by (apply existsb_exists; eauto).
        congruence.
      * intros H t' ms' mk Hin. apply (H t' ms' mk). right. exact Hin.
Qed.

(** C9.  [DetectPackageType] is total: on every file name it returns one
    of the eight ecosystem identifiers or the empty one, namely the
    identifier of the first ecosystem one of whose marker names is a
    substring of the lower-cased name; the result is empty exactly when no
    marker occurs, and only depends on the lower-cased name.  The Go
    modules identifier is returned for backend/go.sum and the empty one for
    README.md. *)
Theorem DetectPackageType_markers (filename : string) :
  DetectPackageType filename =
    detect_by_markers package_markers (ToLower filename) /\
  In (DetectPackageType filename) package_types /\
  (DetectPackageType filename = "" <->
     forall t ms mk pre post,
       In (t, ms) package_markers -> In mk ms ->
       ToLower filename <> pre +:+ mk +:+ post) /\
  (forall other, ToLower other = ToLower filename ->
     DetectPackageType other = DetectPackageType filename) /\
  DetectPackageType "backend/go.sum" = PackageTypeGo /\
  DetectPackageType "Backend/GO.Sum" = PackageTypeGo /\
  DetectPackageType "README.md" = "".
Proof.
  assert (Heq : forall f,
    DetectPackageType f = detect_by_markers package_markers (ToLower f)).
  { intros f. unfold DetectPackageType, package_markers. cbn [detect_by_markers existsb].
    rewrite !orb_false_r, !orb_assoc. reflexivity. }
  split; [apply Heq|].
  split.
  { unfold DetectPackageType, package_types.
    repeat match goal with
    | |- context [if ?b then _ else _] => destruct b; [simpl; tauto|]
    end. simpl; tauto. }
  split.
  { rewrite Heq, detect_by_markers_empty.
    - split.
      + intros H t ms mk pre post Hin Hmk E.
        assert (Contains (ToLower filename) mk = true) as Hc
          by (apply Contains_substring; eauto).
        rewrite (H t ms mk Hin Hmk) in Hc. discriminate.
      + intros H t ms mk Hin Hmk.
        destruct (Contains (ToLower filename) mk) eqn:Ec; [|reflexivity].
        apply Contains_substring in Ec as (pre & post & E).
        destruct (H t ms mk pre post Hin Hmk E).
    - intros t ms Hin. unfold package_markers in Hin. simpl in Hin.
      repeat destruct Hin as [[= <- <-]|Hin]; try discriminate. destruct Hin. }
  split.
  { intros other E. rewrite !Heq, E. reflexivity. }
  repeat split; vm_compute; reflexivity.
Qed.

(* ===================================================================== *)
(** * Further properties *)
(* ===================================================================== *)

(** ** Masking *)

Lemma substring_0_append (a b : string) :
  substring 0 (String.length a) (a +:+ b) = a.
Proof.
  induction a as [|c a IH].
  - destruct b; reflexivity.
  - rewrite append_cons. cbn [String.length substring]. rewrite IH. reflexivity.
Qed.

Lemma drop_str_append (a b : string) : drop_str (String.length a) (a +:+ b) = b.
Proof.
  induction a as [|c a IH]; [reflexivity|].
  rewrite append_cons. simpl. exact IH.
Qed.

Lemma length_drop_str (n : nat) (s : string) :
  String.length (drop_str n s) = (String.length s - n)%nat.
Proof.
  revert s. induction n as [|n IH]; intros s; simpl.
  - lia.
  - destruct s as [|c s]; simpl; [reflexivity|apply IH].
Qed.

Lemma append_assoc (a b c : string) : (a +:+ b) +:+ c = a +:+ (b +:+ c).
Proof.
  induction a as [|ch a IH]; [reflexivity|].
  rewrite !append_cons, IH. reflexivity.
Qed.

(** X1.  [MaskSecret] on a secret of more than eight bytes shows its first
    three and its last three bytes around four stars, and nothing of what
    lies between: the mask is the same for every middle part. *)
Theorem MaskSecret_hides_middle (first middle last : string) :
  String.length first = 3%nat -> String.length last = 3%nat ->
  (3 <= String.length middle)%nat ->
  MaskSecret (first +:+ middle +:+ last) = first +:+ "****" +:+ last.
Proof.
  intros Hf Hl Hm. unfold MaskSecret.
  rewrite !length_append, Hf, Hl.
  destruct (3 + (String.length middle + 3) <=? 8)%nat eqn:E;
    [apply Nat.leb_le in E; lia|].
  assert (substring 0 3 (first +:+ middle +:+ last) = first) as ->.
  { rewrite <- Hf. apply substring_0_append. }
  assert (drop_str (3 + (String.length middle + 3) - 3) (first +:+ middle +:+ last)
          = last) as ->; [|reflexivity].
  replace (3 + (String.length middle + 3) - 3)%nat
    with (String.length (first +:+ middle))
    by (rewrite length_append, Hf; lia).
  rewrite <- (append_assoc first middle last). apply drop_str_append.
Qed.

Lemma MaskSecret_hides_middle_witness :
  MaskSecret ("ghp" +:+ "_0123456789abcdef" +:+ "xyz") = "ghp" +:+ "****" +:+ "xyz".
Proof.
  apply (MaskSecret_hides_middle "ghp" "_0123456789abcdef" "xyz");
    [reflexivity|reflexivity|].
  vm_compute. repeat constructor.
Defined.

(** X2.  [MaskAPIKey] on a key of more than ten bytes shows its first four
    and its last four bytes around three dots, and nothing of what lies
    between. *)
Theorem MaskAPIKey_hides_middle (first middle last : string) :
  String.length first = 4%nat -> String.length last = 4%nat ->
  (3 <= String.length middle)%nat ->
  MaskAPIKey (first +:+ middle +:+ last) = first +:+ "..." +:+ last.
Proof.
  intros Hf Hl Hm. unfold MaskAPIKey.
  rewrite !length_append, Hf, Hl.
  destruct (4 + (String.length middle + 4) <=? 10)%nat eqn:E;
    [apply Nat.leb_le in E; lia|].
  assert (substring 0 4 (first +:+ middle +:+ last) = first) as ->.
  { rewrite <- Hf. apply substring_0_append. }
  assert (drop_str (4 + (String.length middle + 4) - 4) (first +:+ middle +:+ last)
          = last) as ->; [|reflexivity].
  replace (4 + (String.length middle + 4) - 4)%nat
    with (String.length (first +:+ middle))
    by (rewrite length_append, Hf; lia).
  rewrite <- (append_assoc first middle last). apply drop_str_append.
Qed.

Lemma MaskAPIKey_hides_middle_witness :
  MaskAPIKey ("rdv_" +:+ "0123456789" +:+ "wxyz") = "rdv_" +:+ "..." +:+ "wxyz".
Proof.
  apply (MaskAPIKey_hides_middle "rdv_" "0123456789" "wxyz");
    [reflexivity|reflexivity|].
  vm_compute. repeat constructor.
Defined.

(** X3.  The masks do not grow with their input: a secret of at most eight
    bytes and a key of at most ten bytes give the four stars alone, every
    longer secret a mask of ten bytes and every longer key a mask of eleven
    bytes. *)
Theorem mask_lengths (s : string) :
  ((String.length s <= 8)%nat -> MaskSecret s = "****") /\
  ((8 < String.length s)%nat -> String.length (MaskSecret s) = 10%nat) /\
  ((String.length s <= 10)%nat -> MaskAPIKey s = "****") /\
  ((10 < String.length s)%nat -> String.length (MaskAPIKey s) = 11%nat).
Proof.
  unfold MaskSecret, MaskAPIKey. repeat split; intros H.
  - apply Nat.leb_le in H. rewrite H. reflexivity.
  - destruct (String.length s <=? 8)%nat eqn:E; [apply Nat.leb_le in E; lia|].
    rewrite !length_append, length_substring_0, length_drop_str by lia.
    simpl. lia.
  - apply Nat.leb_le in H. rewrite H. reflexivity.
  - destruct (String.length s <=? 10)%nat eqn:E; [apply Nat.leb_le in E; lia|].
    rewrite !length_append, length_substring_0, length_drop_str by lia.
    simpl. lia.
Qed.

(** ** The installation check *)

Lemma get_append_length (a b : string) :
  get (String.length a) (a +:+ b) = get 0 b.
Proof.
  induction a as [|c a IH]; [reflexivity|].
  rewrite append_cons. cbn [String.length get]. exact IH.
Qed.

Lemma indexNewline_from_spec (s : string) :
  forall i,
    (indexNewline_from i s = -1 /\ no_line_break s = true) \/
    (exists n c,
       indexNewline_from i s = i + Z.of_nat n /\ (n < String.length s)%nat /\
       get n s = Some c /\ is_line_break c = true /\
       no_line_break (substring 0 n s) = true /\
       exists rest, s = substring 0 n s +:+ rest) \/
    i < 0.
Proof.
  induction s as [|c s IH]; intros i.
  - left. split; reflexivity.
  - destruct (Z.lt_ge_cases i 0) as [Hi|Hi]; [right; right; exact Hi|].
    cbn [indexNewline_from]. destruct (is_line_break c) eqn:Ec.
    + right. left. exists O, c. repeat split; simpl; try lia; try assumption.
      exists (String c s). reflexivity.
    + destruct (IH (i + 1)) as [[H1 H2]|[(n & c' & H1 & H2 & H3 & H4 & H5 & rest & H6)|H]];
        [| |lia].
      * left. split; [exact H1|]. unfold no_line_break in *. simpl.
        rewrite Ec, H2. reflexivity.
      * right. left. exists (S n), c'. split; [rewrite H1; lia|].
        split; [simpl; lia|]. split; [exact H3|]. split; [exact H4|].
        split.
        -- unfold no_line_break in *. cbn [substring all_bytes].
           rewrite Ec, H5. reflexivity.
        -- exists rest. cbn [substring]. rewrite append_cons, <- H6. reflexivity.
Qed.

(** X4.  [indexNewline] returns -1 exactly when the string has no line feed
    and no carriage return; otherwise it returns the byte index of the first
    one: an index inside the string, with a line break at it and none
    before it. *)
Theorem indexNewline_first_break (s : string) :
  (indexNewline s = -1 <-> no_line_break s = true) /\
  (indexNewline s <> -1 ->
   exists n c,
     indexNewline s = Z.of_nat n /\ (n < String.length s)%nat /\
     get n s = Some c /\ is_line_break c = true /\
     no_line_break (substring 0 n s) = true).
Proof.
  unfold indexNewline.
  destruct (indexNewline_from_spec s 0)
    as [[H1 H2]|[(n & c & H1 & H2 & H3 & H4 & H5 & _)|H]]; [| |lia].
  - split; [tauto|congruence].
  - split.
    + split; [lia|]. intros Hno. exfalso.
      assert (forall m t ch, get m t = Some ch -> no_line_break t = true ->
                is_line_break ch = false) as K.
      { clear. intros m t. revert m. induction t as [|a t IH]; intros m ch Hg Hn;
          [discriminate|].
        unfold no_line_break in *. simpl in Hn. apply andb_true_iff in Hn as [Ha Ht].
        destruct m as [|m]; simpl in Hg.
        - injection Hg as <-. destruct (is_line_break a); [discriminate|reflexivity].
        - eapply IH; eassumption. }
      rewrite (K n s c H3 Hno) in H4. discriminate.
    + intros _. exists n, c. rewrite H1. repeat split; assumption.
Qed.

Lemma CheckBinaryInstalled_unfold (rt : Runtime) (ctx : Context) (binary : string)
    (versionArgs : list string) :
  CheckBinaryInstalled rt ctx binary versionArgs =
  match snd (Cmd_Output ctx (spawn rt (version_cmd binary versionArgs))) with
  | Some _ => (false, "", None)
  | None =>
      (true,
       version_line (string_of_list_byte
         (fst (Cmd_Output ctx (spawn rt (version_cmd binary versionArgs))))),
       None)
  end.
Proof.
  unfold CheckBinaryInstalled, version_cmd, version_line.
  destruct (Cmd_Output ctx _) as [output [e|]]; reflexivity.
Qed.

(** The version made of an output that does not start with a line break is
    its first line: a prefix of the output without any line break, followed
    in the output by a line break or by nothing. *)
Lemma version_line_first (out : string) :
  (forall c rest, out = String c rest -> is_line_break c = false) ->
  no_line_break (version_line out) = true /\
  (version_line out = out \/
   exists c rest, out = version_line out +:+ String c rest /\
                  is_line_break c = true).
Proof.
  intros Hfirst. unfold version_line, indexNewline.
  destruct (indexNewline_from_spec out 0)
    as [[H1 H2]|[(n & c & H1 & H2 & H3 & H4 & H5 & rest & H6)|H]]; [| |lia].
  - rewrite H1. simpl. split; [exact H2|left; reflexivity].
  - rewrite H1. destruct n as [|n].
    + destruct out as [|c0 out']; [discriminate H3|].
      simpl in H3. injection H3 as ->.
      rewrite (Hfirst c out' eq_refl) in H4. discriminate.
    + replace (0 <? 0 + Z.of_nat (S n))%Z with true
        by (symmetry; apply Z.ltb_lt; lia).
      replace (Z.to_nat (0 + Z.of_nat (S n))) with (S n) by lia.
      split; [exact H5|]. right.
      assert (get (S n) out = get 0 rest) as Hg.
      { assert (String.length (substring 0 (S n) out) = S n) as Hlen
          by (apply length_substring_0; lia).
        pose proof (get_append_length (substring 0 (S n) out) rest) as G.
        rewrite Hlen, <- H6 in G. exact G. }
      rewrite H3 in Hg. destruct rest as [|c' rest']; [discriminate Hg|].
      simpl in Hg. injection Hg as <-.
      exists c, rest'. split; [exact H6|exact H4].
Qed.

(** X5.  When the binary ran without error and its output does not start
    with a line break, the version [CheckBinaryInstalled] returns is the
    first line of the output: it has no line feed and no carriage return,
    and the output continues after it with a line break or not at all. *)
Theorem CheckBinaryInstalled_first_line (rt : Runtime) (ctx : Context)
    (binary : string) (versionArgs : list string) (out : string) :
  Cmd_Output ctx (spawn rt (version_cmd binary versionArgs)) =
    (list_byte_of_string out, None) ->
  (forall c rest, out = String c rest -> is_line_break c = false) ->
  exists version,
    CheckBinaryInstalled rt ctx binary versionArgs = (true, version, None) /\
    no_line_break version = true /\
    (version = out \/
     exists c rest, out = version +:+ String c rest /\ is_line_break c = true).
Proof.
  intros Hout Hfirst. rewrite CheckBinaryInstalled_unfold, Hout.
  cbn [fst snd]. rewrite string_of_list_byte_of_string.
  exists (version_line out). split; [reflexivity|].
  apply version_line_first, Hfirst.
Qed.

Lemma CheckBinaryInstalled_first_line_witness :
  exists version,
    CheckBinaryInstalled rt_version Background "trivy" [] = (true, version, None) /\
    no_line_break version = true /\
    (version = version_output \/
     exists c rest, version_output = version +:+ String c rest /\
                    is_line_break c = true).
Proof.
  apply (CheckBinaryInstalled_first_line rt_version Background "trivy" []
           version_output).
  - reflexivity.
  - intros c rest E. vm_compute in E. injection E as <- _. reflexivity.
Defined.

(** X6.  When the output starts with a line break, [CheckBinaryInstalled]
    returns the whole output as the version, with the line breaks in it:
    the first line is only cut off at an index above zero. *)
Theorem CheckBinaryInstalled_leading_break (rt : Runtime) (ctx : Context)
    (binary : string) (versionArgs : list string) (c : ascii) (rest : string) :
  Cmd_Output ctx (spawn rt (version_cmd binary versionArgs)) =
    (list_byte_of_string (String c rest), None) ->
  is_line_break c = true ->
  CheckBinaryInstalled rt ctx binary versionArgs = (true, String c rest, None).
Proof.
  intros Hout Hc. rewrite CheckBinaryInstalled_unfold, Hout.
  cbn [fst snd]. rewrite string_of_list_byte_of_string.
  unfold version_line, indexNewline. cbn [indexNewline_from]. rewrite Hc.
  reflexivity.
Qed.

Lemma CheckBinaryInstalled_leading_break_witness :
  CheckBinaryInstalled rt_banner Background "trivy" ["version"] =
    (true, banner_output, None).
Proof.
  apply (CheckBinaryInstalled_leading_break rt_banner Background "trivy" ["version"]
           "010"%char ("trivy 0.50.1" +:+ String "010" "")); reflexivity.
Defined.

(** X7.  [CheckBinaryInstalled] never returns an error, and returns the
    empty version with [false]; without arguments it probes with
    [--version].  When nothing fails around the process, the binary is
    reported as installed exactly when it exits with status 0: a binary that
    is there but rejects the version flag counts as not installed. *)
Theorem CheckBinaryInstalled_exit_status (rt : Runtime) (ctx : Context)
    (binary : string) (versionArgs : list string) :
  let inv := spawn rt (version_cmd binary versionArgs) in
  snd (CheckBinaryInstalled rt ctx binary versionArgs) = None /\
  (fst (fst (CheckBinaryInstalled rt ctx binary versionArgs)) = false ->
   snd (fst (CheckBinaryInstalled rt ctx binary versionArgs)) = "") /\
  CheckBinaryInstalled rt ctx binary [] =
    CheckBinaryInstalled rt ctx binary ["--version"] /\
  (lookup_err inv = None -> stdout_pipe_err inv = None ->
   stderr_pipe_err inv = None -> fork_err inv = None -> wait_err inv = None ->
   ending (stdout_stream inv) = EOF ->
   fst (fst (CheckBinaryInstalled rt Background binary versionArgs)) =
     (exit_status inv =? 0)%Z).
Proof.
  intros inv. rewrite !CheckBinaryInstalled_unfold. fold inv.
  split; [destruct (snd (Cmd_Output ctx inv)); reflexivity|].
  split; [destruct (snd (Cmd_Output ctx inv)); [reflexivity|discriminate]|].
  split; [reflexivity|].
  intros H1 H2 H3 H4 H5 H6.
  unfold Cmd_Output, Cmd_Wait, run_child. rewrite H1, H2, H3, H4, H5, H6.
  cbn. destruct (exit_status inv =? 0)%Z; reflexivity.
Qed.

(** ** More on stream capture *)

Local Opaque MaxScanTokenSize.

Lemma terminated_lines_ReadBytes (pending : list Byte.byte) (e : read_end) :
  forall line rest err,
    ReadBytes newline pending e = (line, rest, err) -> pending <> [] ->
    terminated_lines pending = line :: terminated_lines rest.
Proof.
  induction pending as [|b pending IH]; intros line rest err H Hne; [congruence|].
  cbn [ReadBytes terminated_lines] in *. destruct (Byte.eqb b newline).
  - injection H as <- <- <-. reflexivity.
  - destruct (ReadBytes newline pending e) as [[line' rest'] err'] eqn:E.
    injection H as <- <- <-. destruct pending as [|b' pending'].
    + simpl in E. injection E as <- <- <-. reflexivity.
    + rewrite (IH line' rest' err' eq_refl) by discriminate. reflexivity.
Qed.

Lemma concat_terminated_lines (data : list Byte.byte) :
  concat (terminated_lines data) = data.
Proof.
  induction data as [|b data IH]; [reflexivity|].
  cbn [terminated_lines]. destruct (Byte.eqb b newline).
  - simpl. rewrite IH. reflexivity.
  - destruct (terminated_lines data) as [|l ls]; simpl in *.
    + rewrite <- IH. reflexivity.
    + rewrite <- IH. reflexivity.
Qed.

(** With enough rounds, the loop of [captureOutput] prints one entry per
    line when the stream flag is set, and nothing otherwise. *)
Lemma captureLoop_console (fuel : nat) :
  forall pending e stream pre buf console,
    (length pending < fuel)%nat ->
    snd (captureLoop fuel pending e stream pre buf console) =
    (console ++
     if stream
     then map (fun l => "[" +:+ pre +:+ "] " +:+ string_of_list_byte l)
              (terminated_lines pending)
     else [])%list.
Proof.
  induction fuel as [|fuel IH]; intros pending e stream pre buf console Hf; [lia|].
  cbn [captureLoop].
  destruct (ReadBytes newline pending e) as [[line rest] err] eqn:E.
  destruct (ReadBytes_spec _ _ _ _ _ _ E) as [Hp Herr].
  destruct pending as [|b pending'].
  - simpl in E. injection E as <- <- <-. simpl.
    destruct stream; rewrite app_nil_r; reflexivity.
  - rewrite (terminated_lines_ReadBytes _ _ _ _ _ E) by discriminate.
    assert (0 < length line)%nat as Hl.
    { destruct line; [|simpl; lia]. destruct err; [|exact Herr].
      subst rest. discriminate Hp. }
    replace (0 <? length line)%nat with true by (symmetry; apply Nat.ltb_lt; exact Hl).
    destruct err as [e'|].
    + subst rest. destruct stream; simpl; rewrite ?app_nil_r; reflexivity.
    + rewrite IH.
      * destruct stream; simpl; rewrite <- ?app_assoc; reflexivity.
      * rewrite Hp, length_app in Hf. lia.
Qed.

(** X8.  The console echo of [captureOutput]: with the stream flag, every
    line of the stream is printed once, in order, with its terminator and
    after the prefix in brackets, so that the echoed lines put together are
    the captured bytes; without the flag nothing is printed. *)
Theorem captureOutput_echo (r : Stream) (pre : string) :
  snd (captureOutput r false pre) = [] /\
  snd (captureOutput r true pre) =
    map (fun l => "[" +:+ pre +:+ "] " +:+ string_of_list_byte l)
        (terminated_lines (delivered r)) /\
  concat (terminated_lines (delivered r)) = fst (captureOutput r true pre).
Proof.
  unfold captureOutput. rewrite !captureLoop_console, captureLoop_all by lia.
  repeat split. apply concat_terminated_lines.
Qed.

Lemma IndexByte_Some_split (l : list Byte.byte) (c : Byte.byte) :
  forall i, IndexByte l c = Some i ->
    l = (firstn i l ++ c :: skipn (S i) l)%list /\
    IndexByte (firstn i l) c = None.
Proof.
  induction l as [|b l IH]; intros i H; [discriminate|].
  cbn [IndexByte] in H. destruct (Byte.eqb b c) eqn:Eb.
  - injection H as <-. apply Byte.byte_dec_bl in Eb. subst b.
    split; reflexivity.
  - destruct (IndexByte l c) as [j|] eqn:Ej; [|discriminate].
    injection H as <-. destruct (IH j eq_refl) as [H1 H2].
    split.
    + cbn [firstn skipn app]. f_equal. exact H1.
    + cbn [firstn IndexByte]. rewrite Eb, H2. reflexivity.
Qed.

Lemma IndexByte_firstn_Some (n : nat) (l : list Byte.byte) (c : Byte.byte) :
  forall i, IndexByte (firstn n l) c = Some i -> IndexByte l c = Some i.
Proof.
  revert n. induction l as [|b l IH]; intros [|n] i H; try discriminate H.
  cbn [firstn IndexByte] in *. destruct (Byte.eqb b c); [exact H|].
  destruct (IndexByte (firstn n l) c) as [j|] eqn:Ej; [|discriminate].
  rewrite (IH n j Ej). exact H.
Qed.

Lemma IndexByte_dropCR (l : list Byte.byte) :
  IndexByte l newline = None -> IndexByte (dropCR l) newline = None.
Proof.
  induction l as [|b l IH]; intros H; [reflexivity|].
  cbn [IndexByte] in H. destruct (Byte.eqb b newline) eqn:Eb; [discriminate|].
  destruct (IndexByte l newline) eqn:El; [discriminate|].
  destruct l as [|b' l'].
  - simpl. destruct (Byte.eqb b carriage_return); simpl; [|rewrite Eb]; reflexivity.
  - change (dropCR (b :: b' :: l')) with (b :: dropCR (b' :: l')).
    cbn [IndexByte]. rewrite Eb, IH; reflexivity.
Qed.

Lemma split_lines_line (l rest : list Byte.byte) :
  IndexByte l newline = None ->
  split_lines (l ++ newline :: rest) = l :: split_lines rest.
Proof.
  induction l as [|b l IH]; intros H.
  - reflexivity.
  - cbn [IndexByte] in H. destruct (Byte.eqb b newline) eqn:Eb; [discriminate|].
    destruct (IndexByte l newline) eqn:El; [discriminate|].
    cbn [app split_lines]. rewrite Eb, IH by reflexivity. reflexivity.
Qed.

Lemma split_lines_last (l : list Byte.byte) :
  IndexByte l newline = None -> l <> [] -> split_lines l = [l].
Proof.
  induction l as [|b l IH]; intros H Hne; [congruence|].
  cbn [IndexByte] in H. destruct (Byte.eqb b newline) eqn:Eb; [discriminate|].
  destruct (IndexByte l newline) eqn:El; [discriminate|].
  cbn [split_lines]. rewrite Eb. destruct l as [|b' l'].
  - reflexivity.
  - rewrite IH by (reflexivity || discriminate). reflexivity.
Qed.

(** Whenever [Scan] gives a token, it is the first line of the pending
    bytes without its trailing carriage return, and what is left are the
    bytes of the following lines. *)
Lemma Scan_Some (pending token rest : list Byte.byte) :
  Scan pending = Some (token, rest) ->
  exists l, split_lines pending = l :: split_lines rest /\ token = dropCR l /\
            IndexByte l newline = None /\ (length rest < length pending)%nat.
Proof.
  unfold Scan. intros H.
  destruct (IndexByte (firstn MaxScanTokenSize pending) newline) as [i|] eqn:Ei.
  - injection H as <- <-.
    apply IndexByte_firstn_Some in Ei.
    destruct (IndexByte_Some_split _ _ _ Ei) as [Hsplit Hno].
    exists (firstn i pending). split; [|split; [reflexivity|split; [exact Hno|]]].
    + rewrite Hsplit at 1. apply split_lines_line, Hno.
    + rewrite Hsplit at 2. rewrite length_app. simpl. lia.
  - destruct (length pending <? MaxScanTokenSize)%nat eqn:El; [|discriminate].
    destruct pending as [|b pending']; [discriminate|].
    injection H as <- <-. apply Nat.ltb_lt in El.
    rewrite firstn_all2 in Ei by lia.
    exists (b :: pending'). split; [|split; [reflexivity|split; [exact Ei|simpl; lia]]].
    apply split_lines_last; [exact Ei|discriminate].
Qed.

(** The loop of [streamWithHandler], seen from the calls it makes when
    there is a handler. *)
Lemma streamLoop_calls (isError : bool) (fuel : nat) :
  forall pending handler buf calls,
    streamLoop fuel pending handler isError buf calls =
    ((buf ++ flat_map (fun c => list_byte_of_string (fst c) ++ [newline])
               (snd (streamLoop fuel pending true isError [] [])))%list,
     if handler
     then (calls ++ snd (streamLoop fuel pending true isError [] []))%list
     else calls).
Proof.
  induction fuel as [|fuel IH]; intros pending handler buf calls.
  - simpl. rewrite !app_nil_r. destruct handler; reflexivity.
  - cbn [streamLoop]. destruct (Scan pending) as [[token rest]|].
    + rewrite (IH rest handler). rewrite (IH rest true ([] ++ _)%list ([] ++ _)%list).
      cbn [snd app flat_map fst]. rewrite stored_token.
      rewrite list_byte_of_string_of_list_byte, <- !app_assoc.
      destruct handler; [rewrite <- app_assoc|]; reflexivity.
    + simpl. rewrite !app_nil_r. destruct handler; reflexivity.
Qed.

Lemma streamLoop_calls_sound (isError : bool) (fuel : nat) :
  forall pending,
    Forall (fun c => snd c = isError /\
                     IndexByte (list_byte_of_string (fst c)) newline = None)
           (snd (streamLoop fuel pending true isError [] [])) /\
    exists rest,
      map dropCR (split_lines pending) =
      (map (fun c => list_byte_of_string (fst c))
           (snd (streamLoop fuel pending true isError [] [])) ++ rest)%list.
Proof.
  induction fuel as [|fuel IH]; intros pending.
  - simpl. split; [constructor|]. eexists. reflexivity.
  - cbn [streamLoop]. destruct (Scan pending) as [[token rest]|] eqn:E.
    + rewrite streamLoop_calls. cbn [snd app].
      destruct (Scan_Some _ _ _ E) as (l & Hsplit & -> & Hno & _).
      destruct (IH rest) as [Hall (more & Hmore)]. split.
      * constructor; [|exact Hall]. cbn [fst snd].
        rewrite list_byte_of_string_of_list_byte.
        split; [reflexivity|apply IndexByte_dropCR, Hno].
      * exists more. rewrite Hsplit. cbn [map fst].
        rewrite list_byte_of_string_of_list_byte, Hmore. reflexivity.
    + simpl. split; [constructor|]. eexists. reflexivity.
Qed.

(** X9.  What [streamWithHandler] returns is made of the lines it hands to
    the handler: each line followed by one line feed, in the order of the
    calls; no line holds a line feed, and every call carries the flag of the
    stream.  The bytes are the same with a nil handler. *)
Theorem streamWithHandler_buffer_of_calls (r : Stream) (handler isError : bool) :
  let calls := snd (streamWithHandler r true isError) in
  fst (streamWithHandler r handler isError) =
    flat_map (fun c => list_byte_of_string (fst c) ++ [newline])%list calls /\
  fst (streamWithHandler r false isError) = fst (streamWithHandler r true isError) /\
  Forall (fun c => snd c = isError /\
                   IndexByte (list_byte_of_string (fst c)) newline = None) calls.
Proof.
  unfold streamWithHandler. cbn zeta.
  pose proof (streamLoop_calls isError (S (length (delivered r))) (delivered r))
    as Hc.
  split; [rewrite (Hc handler [] []); reflexivity|].
  split; [rewrite (Hc false [] []), (Hc true [] []); reflexivity|].
  apply streamLoop_calls_sound.
Qed.

(** X10.  [streamWithHandler] neither invents nor reorders lines: the lines
    handed to the handler are the first lines of the stream, in order, each
    without its trailing carriage return.  It may stop before the end of the
    stream, never skip a line in between. *)
Theorem streamWithHandler_prefix_of_lines (r : Stream) (isError : bool) :
  exists rest,
    map dropCR (split_lines (delivered r)) =
    (map (fun c => list_byte_of_string (fst c))
         (snd (streamWithHandler r true isError)) ++ rest)%list.
Proof.
  unfold streamWithHandler. apply streamLoop_calls_sound.
Qed.

Lemma dropCR_no_CR (l : list Byte.byte) :
  IndexByte l carriage_return = None -> dropCR l = l.
Proof.
  induction l as [|b l IH]; intros H; [reflexivity|].
  cbn [IndexByte] in H. destruct (Byte.eqb b carriage_return) eqn:Eb; [discriminate|].
  destruct (IndexByte l carriage_return) eqn:El; [discriminate|].
  destruct l as [|b' l'].
  - simpl. rewrite Eb. reflexivity.
  - change (dropCR (b :: b' :: l')) with (b :: dropCR (b' :: l')).
    rewrite IH; reflexivity.
Qed.

(** The stored lines of a text without carriage return that ends with a
    line feed are the text itself. *)
Lemma stored_lines_of_text (text : list Byte.byte) :
  IndexByte text carriage_return = None ->
  flat_map stored_line (split_lines (text ++ [newline])) = (text ++ [newline])%list.
Proof.
  induction text as [|b text IH]; intros H; [reflexivity|].
  cbn [IndexByte] in H. destruct (Byte.eqb b carriage_return) eqn:Eb; [discriminate|].
  destruct (IndexByte text carriage_return) eqn:El; [discriminate|].
  specialize (IH eq_refl). cbn [app split_lines].
  destruct (Byte.eqb b newline) eqn:En.
  - apply Byte.byte_dec_bl in En. subst b.
    cbn [flat_map]. rewrite IH. reflexivity.
  - destruct (split_lines (text ++ [newline])) as [|l ls].
    + simpl in IH. destruct text; discriminate IH.
    + cbn [flat_map] in *. unfold stored_line in *.
      destruct l as [|b' l'].
      * simpl in IH. simpl. rewrite Eb. simpl. rewrite <- IH. reflexivity.
      * change (dropCR (b :: b' :: l')) with (b :: dropCR (b' :: l')).
        simpl. rewrite <- IH. reflexivity.
Qed.

(** X11.  On a text without carriage return, whose lines are all shorter
    than the scanner buffer and all end with a line feed, the two capture
    modes agree: [streamWithHandler] returns the same bytes as
    [captureOutput], the bytes the stream delivered. *)
Theorem capture_modes_agree (text : list Byte.byte) (e : read_end)
    (verbose handler isError : bool) (pre : string) :
  IndexByte text carriage_return = None ->
  Forall (fun l => (length l < MaxScanTokenSize)%nat)
         (split_lines (text ++ [newline])) ->
  fst (streamWithHandler (mkStream (text ++ [newline]) e) handler isError) =
    fst (captureOutput (mkStream (text ++ [newline]) e) verbose pre) /\
  fst (captureOutput (mkStream (text ++ [newline]) e) verbose pre) =
    (text ++ [newline])%list.
Proof.
  intros Hcr Hshort. unfold streamWithHandler, captureOutput. cbn [delivered ending].
  rewrite streamLoop_lines by (try lia; exact Hshort).
  rewrite captureLoop_all by lia. cbn [fst app].
  split; [apply stored_lines_of_text, Hcr|reflexivity].
Qed.

Lemma capture_modes_agree_witness :
  fst (streamWithHandler
         (mkStream (list_byte_of_string "finding 1" ++ [newline]) EOF) true false) =
    fst (captureOutput
           (mkStream (list_byte_of_string "finding 1" ++ [newline]) EOF) false "stdout") /\
  fst (captureOutput
         (mkStream (list_byte_of_string "finding 1" ++ [newline]) EOF) false "stdout") =
    (list_byte_of_string "finding 1" ++ [newline])%list.
Proof.
  apply (capture_modes_agree (list_byte_of_string "finding 1") EOF false true false
           "stdout").
  - reflexivity.
  - replace (split_lines (list_byte_of_string "finding 1" ++ [newline]))
      with [list_byte_of_string "finding 1"] by (vm_compute; reflexivity).
    constructor; [|constructor]. apply Nat.ltb_lt. vm_compute. reflexivity.
Defined.

Local Transparent MaxScanTokenSize.

(** ** More on the runner *)

(** X12.  A result of [ExecuteScanner] holds, as [Stdout] and [Stderr],
    exactly the bytes the two pipes delivered in that run, whatever the
    verbose flag, and however the child ended. *)
Theorem ExecuteScanner_returns_delivered (rt : Runtime) (ctx : Context)
    (cfg : ExecConfig) (r : ExecResult) :
  ExecuteScanner rt ctx cfg = (Some r, None) ->
  Stdout r = delivered (stdout_stream (ExecuteScanner_inv rt ctx cfg)) /\
  Stderr r = delivered (stderr_stream (ExecuteScanner_inv rt ctx cfg)).
Proof.
  intros H.
  assert (forall s v p, fst (captureOutput s v p) = delivered s) as Hc.
  { intros s v p. unfold captureOutput. rewrite captureLoop_all by lia. reflexivity. }
  pose proof (ExecuteScanner_unfold rt ctx cfg) as U. cbn zeta in U.
  rewrite U in H. clear U. destruct (start_failure _ _); [discriminate|].
  unfold wait_report in H. rewrite !Hc in H.
  destruct (Cmd_Wait_drained _ _) as [[]|]; injection H as <-; split; reflexivity.
Qed.

Lemma ExecuteScanner_returns_delivered_witness :
  Stdout (mkExecResult 0 (list_byte_of_string version_output) [] 1 None) =
    delivered (stdout_stream (ExecuteScanner_inv rt_version Background cfg_plain)) /\
  Stderr (mkExecResult 0 (list_byte_of_string version_output) [] 1 None) =
    delivered (stderr_stream (ExecuteScanner_inv rt_version Background cfg_plain)).
Proof.
  apply (ExecuteScanner_returns_delivered rt_version Background cfg_plain).
  vm_compute. reflexivity.
Defined.

(** X13.  Both runners return either a result with a nil error, or a nil
    result with an error that wraps its cause under the name of the stage
    that failed; and a result never has both an exit code other than zero
    and an [Error]. *)
Theorem runner_result_shape (rt : Runtime) (ctx : Context) (cfg : ExecConfig)
    (handler : bool) :
  result_shape (ExecuteScanner rt ctx cfg) /\
  result_shape (StreamScanner rt ctx cfg handler).
Proof.
  assert (forall out err ms w, result_shape (wait_report out err ms w)) as K.
  { intros out err ms w. unfold wait_report, result_shape.
    destruct w as [[]|]; simpl; congruence. }
  assert (forall c inv e, start_failure c inv = Some e ->
            exists stage cause, e = Errorf stage cause /\ In stage start_stages) as F.
  { intros c inv e. unfold start_failure, start_stages.
    destruct (stdout_pipe_err inv); [intros [= <-]; eexists _, _; simpl; eauto|].
    destruct (stderr_pipe_err inv); [intros [= <-]; eexists _, _; simpl; eauto|].
    destruct (Cmd_Start c inv); [intros [= <-]; eexists _, _; simpl; eauto 6|].
    discriminate. }
  split.
  - pose proof (ExecuteScanner_unfold rt ctx cfg) as U. cbn zeta in U. rewrite U.
    clear U. destruct (start_failure _ _) eqn:E; [exact (F _ _ _ E)|apply K].
  - pose proof (StreamScanner_unfold rt ctx cfg handler) as U. cbn zeta in U.
    rewrite U. clear U. destruct (start_failure _ _) eqn:E; [exact (F _ _ _ E)|apply K].
Qed.

(** X14.  The two runners start the same binary with the same arguments
    in the same directory; [StreamScanner] never sets an environment, and
    the two commands are the same exactly when there are no environment
    overrides. *)
Theorem runners_same_command_iff_no_env (rt : Runtime) (cfg : ExecConfig) :
  (ExecuteScanner_cmd rt cfg = StreamScanner_cmd rt cfg <-> Env cfg = ∅) /\
  Path (ExecuteScanner_cmd rt cfg) = Path (StreamScanner_cmd rt cfg) /\
  CmdArgs (ExecuteScanner_cmd rt cfg) = CmdArgs (StreamScanner_cmd rt cfg) /\
  Dir (ExecuteScanner_cmd rt cfg) = Dir (StreamScanner_cmd rt cfg) /\
  CmdEnv (StreamScanner_cmd rt cfg) = None.
Proof.
  assert (CmdEnv (StreamScanner_cmd rt cfg) = None) as Hn.
  { unfold StreamScanner_cmd. destruct (String.eqb (WorkDir cfg) ""); reflexivity. }
  unfold ExecuteScanner_cmd. fold (StreamScanner_cmd rt cfg).
  destruct (0 <? size (Env cfg))%nat eqn:E.
  - apply Nat.ltb_lt in E. repeat split; try reflexivity; try exact Hn.
    + intros H. apply (f_equal CmdEnv) in H. rewrite Hn in H. discriminate H.
    + intros H. rewrite H, map_size_empty in E. lia.
  - apply Nat.ltb_ge in E. repeat split; try reflexivity; try exact Hn.
    intros _. apply map_size_empty_iff. lia.
Qed.



Lemma streamWithHandler_fst (r : Stream) (handler isError : bool) :
  fst (streamWithHandler r handler isError) =
  flat_map (fun c => list_byte_of_string (fst c) ++ [newline])%list
           (snd (streamWithHandler r true isError)).
Proof.
  unfold streamWithHandler.
  rewrite (streamLoop_calls isError (S (length (delivered r))) (delivered r)
             handler [] []).
  reflexivity.
Qed.

(** X16.  In a result of [StreamScanner], [Stdout] and [Stderr] are the
    lines handed to the handler for each stream in that run, each followed
    by one line feed; with a nil handler, the lines a handler would have
    been handed. *)
Theorem StreamScanner_result_of_calls (rt : Runtime) (ctx : Context)
    (cfg : ExecConfig) (handler : bool) (r : ExecResult) :
  StreamScanner rt ctx cfg handler = (Some r, None) ->
  Stdout r =
    flat_map (fun c => list_byte_of_string (fst c) ++ [newline])%list
      (snd (streamWithHandler
              (stdout_stream (StreamScanner_inv rt ctx cfg handler)) true false)) /\
  Stderr r =
    flat_map (fun c => list_byte_of_string (fst c) ++ [newline])%list
      (snd (streamWithHandler
              (stderr_stream (StreamScanner_inv rt ctx cfg handler)) true true)).
Proof.
  intros H.
  pose proof (StreamScanner_unfold rt ctx cfg handler) as U.
  cbn zeta in U. rewrite U in H. clear U.
  destruct (start_failure _ _); [discriminate|].
  unfold wait_report in H.
  destruct (Cmd_Wait_drained _ _) as [[]|]; injection H as <-; cbn [Stdout Stderr];
    split; apply streamWithHandler_fst.
Qed.

Lemma StreamScanner_result_of_calls_witness :
  Stdout (mkExecResult 0 (list_byte_of_string version_output ++ [newline]) [] 1 None) =
    flat_map (fun c => list_byte_of_string (fst c) ++ [newline])%list
      (snd (streamWithHandler
              (stdout_stream (StreamScanner_inv rt_version Background cfg_plain true))
              true false)) /\
  Stderr (mkExecResult 0 (list_byte_of_string version_output ++ [newline]) [] 1 None) =
    flat_map (fun c => list_byte_of_string (fst c) ++ [newline])%list
      (snd (streamWithHandler
              (stderr_stream (StreamScanner_inv rt_version Background cfg_plain true))
              true true)).
Proof.
  apply (StreamScanner_result_of_calls rt_version Background cfg_plain true).
  vm_compute. reflexivity.
Defined.

(** ** More on CVSS selection and severity *)

Lemma selectFrom_agree (prio : list string) (m m' : gmap string CVSSData) :
  (forall src, In src prio -> m !! src = m' !! src) ->
  selectFrom prio m = selectFrom prio m'.
Proof.
  induction prio as [|p prio IH]; intros H; [reflexivity|].
  simpl. rewrite <- (H p (or_introl eq_refl)).
  rewrite IH by (intros src Hin; apply H; right; exact Hin). reflexivity.
Qed.

(** X17.  [SelectBestCVSS] only looks at the four sources of the priority
    list: two mappings that agree on them give the same record, whatever
    other sources they hold and with whatever scores. *)
Theorem SelectBestCVSS_only_priority_sources (m m' : gmap string CVSSData) :
  (forall src, In src CVSSPriority -> m !! src = m' !! src) ->
  SelectBestCVSS m = SelectBestCVSS m'.
Proof. apply selectFrom_agree. Qed.

Lemma SelectBestCVSS_only_priority_sources_witness :
  SelectBestCVSS ghsa_redhat_osv = SelectBestCVSS ghsa_redhat.
Proof.
  apply (SelectBestCVSS_only_priority_sources ghsa_redhat_osv ghsa_redhat).
  intros src [<-|[<-|[<-|[<-|[]]]]]; vm_compute; reflexivity.
Defined.

(** X18.  The record [SelectBestCVSS] selects never maps to the level info:
    its score is above zero, so [SeverityFromCVSS] gives low, medium, high
    or critical. *)
Theorem selected_score_not_info (m : gmap string CVSSData) (d : CVSSData) :
  SelectBestCVSS m = Some d ->
  In (SeverityFromCVSS (Score d)) ["critical"; "high"; "medium"; "low"].
Proof.
  intros H. apply selectFrom_first in H as (before & src & after & _ & _ & Hs & _).
  unfold SeverityFromCVSS. rewrite Hs.
  destruct (9.0 <=? Score d)%float; [simpl; tauto|].
  destruct (7.0 <=? Score d)%float; [simpl; tauto|].
  destruct (4.0 <=? Score d)%float; simpl; tauto.
Qed.

Lemma selected_score_not_info_witness :
  In (SeverityFromCVSS (Score ghsa_record)) ["critical"; "high"; "medium"; "low"].
Proof.
  apply (selected_score_not_info ghsa_redhat ghsa_record).
  vm_compute. reflexivity.
Defined.

Lemma SFleb_trans (a b c : spec_float) :
  SFleb a b = true -> SFleb b c = true -> SFleb a c = true.
Proof.
  unfold SFleb.
  destruct a as [sa|sa| |sa ma ea], b as [sb|sb| |sb mb eb],
    c as [sc|sc| |sc mc ec]; simpl; try congruence;
    try destruct sa; try destruct sb; try destruct sc; simpl; try congruence;
    intros H1 H2; sf_cases.
Qed.

Lemma float_leb_trans (x y z : float) :
  (x <=? y)%float = true -> (y <=? z)%float = true -> (x <=? z)%float = true.
Proof. rewrite !leb_spec. apply SFleb_trans. Qed.

(** X19.  [SeverityFromCVSS] is monotone: a score that is not smaller never
    gets a lower level. *)
Theorem SeverityFromCVSS_monotone (s1 s2 : float) :
  (s1 <=? s2)%float = true ->
  (severity_rank (SeverityFromCVSS s1) <= severity_rank (SeverityFromCVSS s2))%nat.
Proof.
  intros H. unfold SeverityFromCVSS.
  destruct (9.0 <=? s1)%float eqn:A9.
  { rewrite (float_leb_trans _ _ _ A9 H). reflexivity. }
  destruct (9.0 <=? s2)%float eqn:B9.
  { repeat match goal with |- context [if ?b then _ else _] => destruct b end;
      vm_compute; lia. }
  destruct (7.0 <=? s1)%float eqn:A7.
  { rewrite (float_leb_trans _ _ _ A7 H). reflexivity. }
  destruct (7.0 <=? s2)%float eqn:B7.
  { repeat match goal with |- context [if ?b then _ else _] => destruct b end;
      vm_compute; lia. }
  destruct (4.0 <=? s1)%float eqn:A4.
  { rewrite (float_leb_trans _ _ _ A4 H). reflexivity. }
  destruct (4.0 <=? s2)%float eqn:B4.
  { repeat match goal with |- context [if ?b then _ else _] => destruct b end;
      vm_compute; lia. }
  destruct (0 <? s1)%float eqn:A0.
  { rewrite (float_ltb_leb_trans _ _ _ A0 H). reflexivity. }
  destruct (0 <? s2)%float; vm_compute; lia.
Qed.

Lemma SeverityFromCVSS_monotone_witness :
  (severity_rank (SeverityFromCVSS 3.5) <= severity_rank (SeverityFromCVSS 7.2))%nat.
Proof.
  apply (SeverityFromCVSS_monotone 3.5 7.2). vm_compute. reflexivity.
Defined.

(** X20.  The five levels are fixed points of [NormalizeSeverity]:
    normalising twice is normalising once, and normalising the level of a
    score gives it back. *)
Theorem NormalizeSeverity_canonical (severity : string) (score : float) :
  NormalizeSeverity (NormalizeSeverity severity) = NormalizeSeverity severity /\
  NormalizeSeverity (SeverityFromCVSS score) = SeverityFromCVSS score.
Proof.
  assert (forall level, In level severity_levels -> NormalizeSeverity level = level)
    as Hfix.
  { intros level Hin. unfold severity_levels in Hin. simpl in Hin.
    repeat destruct Hin as [<-|Hin]; try (vm_compute; reflexivity). destruct Hin. }
  split; apply Hfix.
  - unfold NormalizeSeverity, severity_levels.
    repeat match goal with
    | |- context [if ?b then _ else _] => destruct b; [simpl; tauto|]
    end. simpl; tauto.
  - unfold SeverityFromCVSS, severity_levels.
    repeat match goal with
    | |- context [if ?b then _ else _] => destruct b; [simpl; tauto|]
    end. simpl; tauto.
Qed.

(** ** More on fingerprints *)

(** X21.  The secret enters its fingerprint through the first eight hex
    digits of its digest only: two secrets whose digests start alike have
    the same fingerprint at the same place, as the two distinct secrets of
    the example do. *)
Theorem secret_fingerprint_prefix_only (file ruleID : string) (startLine : Z)
    (secret1 secret2 : string) :
  substring 0 8 (hashString secret1) = substring 0 8 (hashString secret2) ->
  GenerateSecretFingerprint file ruleID startLine secret1 =
  GenerateSecretFingerprint file ruleID startLine secret2.
Proof. intros H. unfold GenerateSecretFingerprint. rewrite H. reflexivity. Qed.

Lemma secret_fingerprint_prefix_only_witness :
  "secret-36533" <> "secret-103289" /\
  GenerateSecretFingerprint "config.yml" "generic-api-key" 12 "secret-36533" =
  GenerateSecretFingerprint "config.yml" "generic-api-key" 12 "secret-103289".
Proof.
  split; [discriminate|].
  apply (secret_fingerprint_prefix_only "config.yml" "generic-api-key" 12
           "secret-36533" "secret-103289").
  vm_compute. reflexivity.
Defined.

(** ** More on package type detection *)

Lemma append_nil_r (s : string) : s +:+ "" = s.
Proof.
  induction s as [|c s IH]; [reflexivity|]. rewrite append_cons, IH. reflexivity.
Qed.

(** [ToLower] one byte further. *)
Lemma ToLower_step (c : ascii) (t : string) :
  ToLower (String c t) =
  match t with
  | String d t' =>
      if (N_of_ascii c =? 196)%N && (N_of_ascii d =? 176)%N
      then String "i" (ToLower t')
      else
        match t' with
        | String e t'' =>
            if (N_of_ascii c =? 226)%N && (N_of_ascii d =? 132)%N
               && (N_of_ascii e =? 170)%N
            then String "k" (ToLower t'')
            else String (lower_byte c) (ToLower t)
        | EmptyString => String (lower_byte c) (ToLower t)
        end
  | EmptyString => String (lower_byte c) EmptyString
  end.
Proof. destruct t as [|d [|e t'']]; reflexivity. Qed.

(** An ASCII byte is lowered on its own. *)
Lemma ToLower_ascii (c : ascii) (t : string) :
  (N_of_ascii c <? 128)%N = true ->
  ToLower (String c t) = String (lower_byte c) (ToLower t).
Proof.
  intros Hc. apply N.ltb_lt in Hc. rewrite ToLower_step.
  assert ((N_of_ascii c =? 196)%N = false) as -> by (apply N.eqb_neq; lia).
  assert ((N_of_ascii c =? 226)%N = false) as -> by (apply N.eqb_neq; lia).
  destruct t as [|d [|e t'']]; reflexivity.
Qed.

(** Lowering what follows a prefix does not depend on the prefix, when it
    starts with an ASCII byte: no rune of the prefix reaches into it. *)
Lemma ToLower_prefix (n : nat) :
  forall pre s,
    (String.length pre <= n)%nat -> ascii_head s = true ->
    exists X, ToLower (pre +:+ s) = X +:+ ToLower s.
Proof.
  induction n as [|n IH]; intros pre s Hlen Hs.
  - destruct pre; [|simpl in Hlen; lia]. exists "". reflexivity.
  - destruct pre as [|c pre]; [exists ""; reflexivity|].
    simpl in Hlen. rewrite append_cons, ToLower_step.
    destruct pre as [|d pre'].
    + rewrite append_nil_l. destruct s as [|a s0].
      * exists (String (lower_byte c) ""). reflexivity.
      * simpl in Hs. apply N.ltb_lt in Hs.
        assert ((N_of_ascii a =? 176)%N = false) as -> by (apply N.eqb_neq; lia).
        assert ((N_of_ascii a =? 132)%N = false) as -> by (apply N.eqb_neq; lia).
        rewrite !andb_false_r. exists (String (lower_byte c) "").
        destruct s0; reflexivity.
    + rewrite append_cons.
      destruct ((N_of_ascii c =? 196)%N && (N_of_ascii d =? 176)%N).
      * destruct (IH pre' s) as [X HX]; [simpl in Hlen; lia|exact Hs|].
        exists (String "i" X). rewrite HX. reflexivity.
      * destruct (IH (String d pre') s) as [X' HX']; [simpl in *; lia|exact Hs|].
        rewrite append_cons in HX'.
        destruct pre' as [|e pre''].
        -- rewrite append_nil_l in *. destruct s as [|a s0].
           ++ exists (String (lower_byte c) X'). rewrite HX'. reflexivity.
           ++ simpl in Hs. apply N.ltb_lt in Hs.
              assert ((N_of_ascii a =? 170)%N = false) as ->
                by (apply N.eqb_neq; lia).
              rewrite !andb_false_r. exists (String (lower_byte c) X').
              rewrite HX'. reflexivity.
        -- rewrite append_cons in *.
           destruct ((N_of_ascii c =? 226)%N && (N_of_ascii d =? 132)%N
                     && (N_of_ascii e =? 170)%N).
           ++ destruct (IH pre'' s) as [X HX]; [simpl in *; lia|exact Hs|].
              exists (String "k" X). rewrite HX. reflexivity.
           ++ exists (String (lower_byte c) X'). rewrite HX'. reflexivity.
Qed.

(** A byte that spells a plain lower-case byte, in either case, is an ASCII
    byte whose lower case is that byte. *)
Lemma lower_variant (c m : ascii) :
  plain_lower m = true ->
  (Ascii.eqb c m || Ascii.eqb c (upper_byte m)) = true ->
  lower_byte c = m /\ (N_of_ascii c <? 128)%N = true.
Proof.
  intros Hm H. apply orb_true_iff in H as [H|H]; apply Ascii.eqb_eq in H;
    subst c; destruct m as [[] [] [] [] [] [] [] []]; try discriminate Hm;
    vm_compute; auto.
Qed.

Lemma ToLower_spelled (w marker rest : string) :
  all_bytes plain_lower marker = true -> spells_lower w marker = true ->
  ToLower (w +:+ rest) = marker +:+ ToLower rest /\
  (marker <> "" -> ascii_head (w +:+ rest) = true).
Proof.
  revert marker. induction w as [|c w IH]; intros [|m marker] Hm Hs;
    try discriminate Hs.
  - split; [reflexivity|congruence].
  - simpl in Hm, Hs. apply andb_true_iff in Hm as [Hm0 Hm].
    apply andb_true_iff in Hs as [Hs0 Hs].
    destruct (lower_variant c m Hm0 Hs0) as [Hl Ha].
    destruct (IH marker Hm Hs) as [IHl _].
    rewrite !append_cons. split; [|intros _; exact Ha].
    rewrite (ToLower_ascii c _ Ha), Hl, IHl. reflexivity.
Qed.

(** X22.  [DetectPackageType] finds a marker name anywhere in a path and in
    any letter case: whatever stands before and after it, the result is not
    empty, and it is maven when the name is one of the two maven markers,
    which are looked for first. *)
Theorem DetectPackageType_any_path (pre w post marker : string) :
  In marker all_markers -> spells_lower w marker = true ->
  DetectPackageType (pre +:+ w +:+ post) <> "" /\
  (In marker ["pom.xml"; ".pom"] ->
   DetectPackageType (pre +:+ w +:+ post) = PackageTypeMaven).
Proof.
  intros Hin Hsp.
  assert (all_bytes plain_lower marker = true /\ marker <> "") as [Hpl Hne].
  { unfold all_markers, package_markers in Hin. simpl in Hin.
    repeat destruct Hin as [<-|Hin]; try (split; [reflexivity|discriminate]).
    destruct Hin. }
  destruct (ToLower_spelled w marker post Hpl Hsp) as [Hw Hhead].
  destruct (ToLower_prefix (String.length pre) pre (w +:+ post) (le_n _) (Hhead Hne))
    as [X HX].
  assert (Contains (ToLower (pre +:+ w +:+ post)) marker = true) as Hc.
  { apply Contains_substring. exists X, (ToLower post). rewrite HX, Hw. reflexivity. }
  unfold DetectPackageType. cbn zeta.
  set (lower := ToLower (pre +:+ w +:+ post)) in *.
  unfold all_markers, package_markers in Hin. simpl in Hin.
  split.
  - repeat destruct Hin as [<-|Hin]; try destruct Hin; rewrite Hc;
      rewrite ?orb_true_r; cbn [orb];
      repeat match goal with
      | |- context [if ?b then _ else _] => destruct b; [discriminate|]
      end; try discriminate.
  - intros [<-|[<-|[]]]; rewrite Hc, ?orb_true_r; reflexivity.
Qed.

Lemma DetectPackageType_any_path_witness :
  DetectPackageType ("services/API/" +:+ "Package.JSON" +:+ ".bak") <> "" /\
  (In "package.json" ["pom.xml"; ".pom"] ->
   DetectPackageType ("services/API/" +:+ "Package.JSON" +:+ ".bak") = PackageTypeMaven).
Proof.
  apply (DetectPackageType_any_path "services/API/" "Package.JSON" ".bak"
           "package.json").
  - vm_compute. tauto.
  - vm_compute. reflexivity.
Defined.
